(** * Boss server: slot reconciliation, admin surface, event log, lighting adapter

    A shallow embedding of [server/server.js] (the later, slot-vector variant
    of the file: the one that declares [SLOT_COUNT] and [hpDamageEnabled]) and
    the properties of its state machine.

    JavaScript numbers are IEEE doubles.  The numbers held in the game state
    are integer valued for an integer configuration, so they are modelled as
    [Z]; numbers arriving in a request body are modelled by [Js.number]
    (a rational, an infinity or NaN).

    The earlier, single-slot variant that opens the same file is embedded in
    the module [Legacy], the sensor firmware in the module [Firmware]. *)

From Stdlib Require Import ZArith QArith Qround String List Bool Lia Sorted DecimalString.
Import ListNotations.
Open Scope Z_scope.
Set Warnings "-register-all".

(** ** JavaScript values as they reach the handlers *)

Module Js.

(** A double: NaN, a finite value (as the rational it denotes) or an
    infinity.  [-0] and [+0] are both [Fin 0]; the handlers only compare
    and floor request numbers, which does not tell the two apart. *)
Inductive number : Type :=
| NaN
| Fin (q : Q)
| PosInf
| NegInf.

(** A value produced by the JSON body parser.  [undefined] is not a JSON
    value: a missing property is [None] in [option value]. *)
Inductive value : Type :=
| Null
| Bool (b : bool)
| Num (n : number)
| Str (s : string)
| Arr (items : list value)
| Obj (fields : list (string * value)).

(** The two engine built-ins that [Number(x)] goes through for strings and
    arrays; they are not part of the server and stay abstract.
    [ArrayToString] is [Array.prototype.join] on the arrays on which it
    returns; [throws] below says on which it does not. *)
Record Engine : Type := {
  StringToNumber : string -> number;
  ArrayToString : list value -> string
}.

Fixpoint assoc (key : string) (fields : list (string * value)) : option value :=
  match fields with
  | [] => None
  | (k, v) :: rest => if String.eqb k key then Some v else assoc key rest
  end.

(** [v.key] for the keys the server reads ([type], [slots], [hp],
    [enabled]): only a plain object can carry them; on every other value
    the property is [undefined]. *)
Definition prop (v : value) (key : string) : option value :=
  match v with
  | Obj fields => assoc key fields
  | _ => None
  end.

(** [v?.key] *)
Definition opt_prop (v : option value) (key : string) : option value :=
  match v with
  | None | Some Null => None
  | Some v' => prop v' key
  end.

(** [Boolean(v)] *)
Definition Boolean (v : value) : bool :=
  match v with
  | Null => false
  | Bool b => b
  | Num NaN => false
  | Num (Fin q) => negb (Qeq_bool q 0)
  | Num _ => true
  | Str s => negb (String.eqb s "")
  | Arr _ | Obj _ => true
  end.

(** What a call of a built-in comes to: a result, or a thrown [TypeError]. *)
Inductive outcome (A : Type) : Type :=
| Returns (a : A)
| Throws.

Arguments Returns {A} a.
Arguments Throws {A}.

(** An own property [key], as [Object.hasOwn(fields, key)]. *)
Definition has_own (key : string) (fields : list (string * value)) : bool :=
  existsb (fun field => String.eqb (fst field) key) fields.

(** Whether converting [v] to a primitive throws.  A parsed body holds no
    function.  An object with an own [toString] therefore hides the
    inherited one and is left without a method that yields a primitive (an
    own [valueOf] is skipped as well, the inherited one returns the object
    itself): [TypeError].  Without it the inherited [toString] answers
    ["[object Object]"].  An array is joined, which converts every element
    other than [null] to a string, and throws where one of them does. *)
Fixpoint throws (v : value) : bool :=
  match v with
  | Obj fields => has_own "toString" fields
  | Arr items => existsb throws items
  | _ => false
  end.

(** [Number(v)], [v] possibly [undefined]. *)
Definition Number (js : Engine) (v : option value) : outcome number :=
  match v with
  | None => Returns NaN
  | Some Null => Returns (Fin 0)
  | Some (Bool true) => Returns (Fin 1)
  | Some (Bool false) => Returns (Fin 0)
  | Some (Num n) => Returns n
  | Some (Str s) => Returns (StringToNumber js s)
  | Some (Arr items) =>
      if existsb throws items then Throws
      else Returns (StringToNumber js (ArrayToString js items))
  | Some (Obj fields) =>
      if has_own "toString" fields then Throws
      else Returns NaN                  (* Number("[object Object]") *)
  end.

(** [v === lit] for a string literal [lit] *)
Definition strict_eq_string (v : option value) (lit : string) : bool :=
  match v with
  | Some (Str s) => String.eqb s lit
  | _ => false
  end.

(** [Array.isArray(v) ? v : null] *)
Definition as_array (v : option value) : option (list value) :=
  match v with
  | Some (Arr items) => Some items
  | _ => None
  end.

(** [typeof v === 'boolean'], with the boolean *)
Definition as_boolean (v : option value) : option bool :=
  match v with
  | Some (Bool b) => Some b
  | _ => None
  end.

(** [req.body || {}] *)
Definition or_empty (v : option value) : value :=
  match v with
  | Some v' => if Boolean v' then v' else Obj []
  | None => Obj []
  end.

Definition int (z : Z) : value := Num (Fin (inject_Z z)).

(** An engine to run the model on concrete requests.  Its string
    conversion is the built-in one on the empty string and on strings of
    decimal digits, and NaN elsewhere; its array conversion is the built-in
    one on the empty array and on a one-string array.  No general statement
    below depends on it. *)
Fixpoint digits_value (s : string) (acc : Z) : option Z :=
  match s with
  | EmptyString => Some acc
  | String c rest =>
      let n := Z.of_nat (Ascii.nat_of_ascii c) in
      if (48 <=? n) && (n <=? 57) then digits_value rest (10 * acc + (n - 48))
      else None
  end.

Definition digits_engine : Engine :=
  {| StringToNumber := fun s =>
       match digits_value s 0 with
       | Some z => Fin (inject_Z z)
       | None => NaN
       end;
     ArrayToString := fun items =>
       match items with
       | [] => ""%string
       | [Str s] => s
       | _ => ","%string
       end |}.

End Js.

(** ** Configuration (read once from the environment) *)

Record Config : Type := {
  BOSS_MAX_HP : Z;
  HP_PER_CRYSTAL : Z;
  WLED_URL : string
}.

Definition SLOT_COUNT : nat := 7.
Definition MAX_RECENT_EVENTS : nat := 20.

(** ** Game state *)

Inductive EventRecord : Type :=
| crystal_insert (slot : nat) (damage : Z) (ts : Z)
| crystal_remove (slot : nat) (ts : Z)
| admin_hp (hp : Z) (ts : Z)
| admin_hp_reduce (damage : Z) (hp : Z) (ts : Z)
| admin_hp_damage (enabled : bool) (ts : Z)
| admin_reset (ts : Z).

Record GameState : Type := {
  bossHp : Z;
  maxHp : Z;
  crystalCount : Z;
  totalCrystalsReceived : Z;
  slots : list bool;
  recentEvents : list EventRecord;
  gameOver : bool;
  hpDamageEnabled : bool
}.

Definition set_bossHp (v : Z) (s : GameState) : GameState :=
  {| bossHp := v; maxHp := maxHp s; crystalCount := crystalCount s;
     totalCrystalsReceived := totalCrystalsReceived s; slots := slots s;
     recentEvents := recentEvents s; gameOver := gameOver s;
     hpDamageEnabled := hpDamageEnabled s |}.

Definition set_crystalCount (v : Z) (s : GameState) : GameState :=
  {| bossHp := bossHp s; maxHp := maxHp s; crystalCount := v;
     totalCrystalsReceived := totalCrystalsReceived s; slots := slots s;
     recentEvents := recentEvents s; gameOver := gameOver s;
     hpDamageEnabled := hpDamageEnabled s |}.

Definition set_totalCrystalsReceived (v : Z) (s : GameState) : GameState :=
  {| bossHp := bossHp s; maxHp := maxHp s; crystalCount := crystalCount s;
     totalCrystalsReceived := v; slots := slots s;
     recentEvents := recentEvents s; gameOver := gameOver s;
     hpDamageEnabled := hpDamageEnabled s |}.

Definition set_slots (v : list bool) (s : GameState) : GameState :=
  {| bossHp := bossHp s; maxHp := maxHp s; crystalCount := crystalCount s;
     totalCrystalsReceived := totalCrystalsReceived s; slots := v;
     recentEvents := recentEvents s; gameOver := gameOver s;
     hpDamageEnabled := hpDamageEnabled s |}.

Definition set_recentEvents (v : list EventRecord) (s : GameState) : GameState :=
  {| bossHp := bossHp s; maxHp := maxHp s; crystalCount := crystalCount s;
     totalCrystalsReceived := totalCrystalsReceived s; slots := slots s;
     recentEvents := v; gameOver := gameOver s;
     hpDamageEnabled := hpDamageEnabled s |}.

Definition set_gameOver (v : bool) (s : GameState) : GameState :=
  {| bossHp := bossHp s; maxHp := maxHp s; crystalCount := crystalCount s;
     totalCrystalsReceived := totalCrystalsReceived s; slots := slots s;
     recentEvents := recentEvents s; gameOver := v;
     hpDamageEnabled := hpDamageEnabled s |}.

Definition set_hpDamageEnabled (v : bool) (s : GameState) : GameState :=
  {| bossHp := bossHp s; maxHp := maxHp s; crystalCount := crystalCount s;
     totalCrystalsReceived := totalCrystalsReceived s; slots := slots s;
     recentEvents := recentEvents s; gameOver := gameOver s;
     hpDamageEnabled := v |}.

(** ** The lighting adapter *)

(** A callback handed to [sendWLED]; it runs when the device answers or the
    request fails.  Both callbacks of [initWLEDSegments] close over the
    callback of [updateWLEDFromSlots], that is over the slot array. *)
Inductive Callback : Type :=
| after_step1 (slots : list bool)
| after_step2 (slots : list bool).

(** ** The process: game state, adapter latch, and what left the process *)

Record World : Type := {
  state : GameState;
  wledSegsReady : bool;
  wledSent : list Js.value;        (* request bodies POSTed to the device, newest first *)
  wledPending : list Callback;     (* callbacks of requests still in flight *)
  broadcasts : list GameState      (* snapshots emitted to the observers, newest first *)
}.

Definition with_state (f : GameState -> GameState) (w : World) : World :=
  {| state := f (state w); wledSegsReady := wledSegsReady w;
     wledSent := wledSent w; wledPending := wledPending w;
     broadcasts := broadcasts w |}.

(** ** A state monad for the handlers *)

Definition M (A : Type) : Type := World -> A * World.

Definition ret {A : Type} (a : A) : M A := fun w => (a, w).

Definition bind {A B : Type} (m : M A) (k : A -> M B) : M B :=
  fun w => k (fst (m w)) (snd (m w)).

Declare Scope js_scope.
Delimit Scope js_scope with js.
Notation "x <- m ;; k" := (bind m (fun x => k))
  (at level 61, m at next level, right associativity) : js_scope.
Notation "m ;; k" := (bind m (fun _ => k))
  (at level 61, right associativity) : js_scope.
Open Scope js_scope.

Definition read : M GameState := fun w => (state w, w).

Definition update (f : GameState -> GameState) : M unit :=
  fun w => (tt, with_state f w).

Definition when (b : bool) (m : M unit) : M unit :=
  if b then m else ret tt.

(** [for (i of idx) acc = body(i, acc)] *)
Fixpoint for_each {A : Type} (idx : list nat) (body : nat -> A -> M A) (acc : A) : M A :=
  match idx with
  | [] => ret acc
  | i :: rest => acc' <- body i acc ;; for_each rest body acc'
  end.

(** ** Event log *)

(** [recentEvents.unshift(ev); if (recentEvents.length > MAX_RECENT_EVENTS) recentEvents.pop()] *)
Definition unshift_pop (ev : EventRecord) (log : list EventRecord) : list EventRecord :=
  let log' := ev :: log in
  if (MAX_RECENT_EVENTS <? length log')%nat then removelast log' else log'.

Definition addEvent (ev : EventRecord) : M unit :=
  update (fun s => set_recentEvents (unshift_pop ev (recentEvents s)) s).

(** [getState()] copies every field; the snapshot is the state value. *)
Definition getState : M GameState := read.

Definition broadcastState : M unit :=
  snap <- getState ;;
  fun w => (tt, {| state := state w; wledSegsReady := wledSegsReady w;
                   wledSent := wledSent w; wledPending := wledPending w;
                   broadcasts := snap :: broadcasts w |}).

(** ** Lighting device *)

Section Server.

Variable cfg : Config.
Variable js : Js.Engine.

Definition WLED_CANDLE_MULTI_FX : Z := 102.
Definition WLED_FILLED_COL : Js.value :=
  Js.Arr [Js.Arr [Js.int 255; Js.int 255; Js.int 255]].
Definition WLED_EMPTY_COL : Js.value :=
  Js.Arr [Js.Arr [Js.int 0; Js.int 0; Js.int 0]].

(** [sendWLED(json, cb)]: nothing at all without a configured URL (the
    callback is then never called); otherwise one POST leaves the process
    and the callback, if any, waits for its completion.  [WLED_URL] is
    taken to be empty or a well-formed URL. *)
Definition sendWLED (json : Js.value) (cb : option Callback) : M unit :=
  if String.eqb (WLED_URL cfg) "" then ret tt
  else fun w =>
    (tt, {| state := state w; wledSegsReady := wledSegsReady w;
            wledSent := json :: wledSent w;
            wledPending := match cb with
                           | Some k => wledPending w ++ [k]
                           | None => wledPending w
                           end;
            broadcasts := broadcasts w |}).

Definition init_step1 : Js.value :=
  Js.Obj [("on", Js.Bool true); ("bri", Js.int 255);
          ("seg", Js.Arr [Js.Obj [("id", Js.int 0); ("start", Js.int 0);
                                  ("stop", Js.int 1); ("on", Js.Bool true);
                                  ("fx", Js.int 0); ("col", WLED_EMPTY_COL)]])]%string.

Definition init_step2 : Js.value :=
  Js.Obj [("seg", Js.Arr (map (fun n : nat =>
             Js.Obj [("id", Js.int (Z.of_nat n)); ("start", Js.int (Z.of_nat n));
                     ("stop", Js.int (Z.of_nat n + 1)); ("on", Js.Bool true);
                     ("fx", Js.int 0); ("col", WLED_EMPTY_COL)]%string)
           (seq 1 (SLOT_COUNT - 1))))]%string.

(** The body of the callback of [updateWLEDFromSlots]. *)
Definition slots_command (slots : list bool) : Js.value :=
  let sliced := firstn SLOT_COUNT slots in
  Js.Obj [("seg", Js.Arr (map (fun '(n, filled) =>
             Js.Obj [("id", Js.int (Z.of_nat n));
                     ("fx", Js.int (if filled : bool then WLED_CANDLE_MULTI_FX else 0));
                     ("col", if filled then WLED_FILLED_COL else WLED_EMPTY_COL)]%string)
           (combine (seq 0 (length sliced)) sliced)))]%string.

Definition set_wledSegsReady (b : bool) : M unit :=
  fun w => (tt, {| state := state w; wledSegsReady := b;
                   wledSent := wledSent w; wledPending := wledPending w;
                   broadcasts := broadcasts w |}).

Definition read_wledSegsReady : M bool := fun w => (wledSegsReady w, w).

(** [initWLEDSegments(cb)] with [cb] the callback of
    [updateWLEDFromSlots(slots)]. *)
Definition initWLEDSegments (slots : list bool) : M unit :=
  ready <- read_wledSegsReady ;;
  if ready then sendWLED (slots_command slots) None
  else sendWLED init_step1 (Some (after_step1 slots)).

Definition updateWLEDFromSlots (slots : list bool) : M unit :=
  if String.eqb (WLED_URL cfg) "" then ret tt
  else initWLEDSegments slots.

(** What a pending callback does when its request completes. *)
Definition run_callback (k : Callback) : M unit :=
  match k with
  | after_step1 slots => sendWLED init_step2 (Some (after_step2 slots))
  | after_step2 slots =>
      set_wledSegsReady true ;;
      sendWLED (slots_command slots) None
  end.

Fixpoint remove_nth {A : Type} (n : nat) (l : list A) : list A :=
  match n, l with
  | _, [] => []
  | O, _ :: rest => rest
  | S n', x :: rest => x :: remove_nth n' rest
  end.

(** The [n]-th request in flight completes (response or error). *)
Definition wled_completes (n : nat) : M unit :=
  fun w =>
    match nth_error (wledPending w) n with
    | None => (tt, w)
    | Some k =>
        run_callback k
          {| state := state w; wledSegsReady := wledSegsReady w;
             wledSent := wledSent w;
             wledPending := remove_nth n (wledPending w);
             broadcasts := broadcasts w |}
    end.

(** ** HTTP handlers *)

Inductive ErrorMsg : Type :=
| Invalid_event_type     (* 'Invalid event: need type <crystal>' *)
| Invalid_event_slots    (* 'Invalid event: slots must be array of 7 booleans' *)
| Invalid_hp             (* 'Invalid hp' *)
| Invalid_enabled.       (* 'Invalid: need enabled (boolean)' *)

Inductive Response : Type :=
| BadRequest (error : ErrorMsg)                                  (* 400 { ok: false, error } *)
| EventOk (bossHp : Z) (gameOver : bool) (slots : list bool)     (* { ok: true, bossHp, gameOver, slots } *)
| StateJson (snap : GameState)                                   (* getState() *)
| HpOk (bossHp : Z)                                              (* { ok: true, bossHp } *)
| HpReduceOk (bossHp : Z) (damage : Z)                           (* { ok: true, bossHp, damage } *)
| HpDamageOk (hpDamageEnabled : bool)                            (* { ok: true, hpDamageEnabled } *)
| ResetOk (snap : GameState)                                     (* { ok: true, ...getState() } *)
| WledOk                                                         (* { ok: true } *)
| ServerError.                                                   (* 500: the handler threw, Express's error handler answers *)

Definition status (r : Response) : nat :=
  match r with
  | BadRequest _ => 400
  | ServerError => 500
  | _ => 200
  end.

(** The [ok] member of the response body, when it has one. *)
Definition ok (r : Response) : option bool :=
  match r with
  | BadRequest _ => Some false
  | StateJson _ => None
  | ServerError => None
  | _ => Some true
  end.

Definition count_true (slots : list bool) : Z :=
  Z.of_nat (length (filter (fun b : bool => b) slots)).

(** The body of the loop of [POST /event]. *)
Definition diff_slot (ts : Z) (slots prevSlots : list bool) (i : nat) (inserts : Z) : M Z :=
  if nth i slots false && negb (nth i prevSlots false) then
    addEvent (crystal_insert i (HP_PER_CRYSTAL cfg) ts) ;;
    ret (inserts + 1)
  else if negb (nth i slots false) && nth i prevSlots false then
    addEvent (crystal_remove i ts) ;;
    ret inserts
  else ret inserts.

(** [bossHp = Math.max(0, maxHp - crystalCount * HP_PER_CRYSTAL); gameOver = bossHp <= 0] *)
Definition derive_hp : M unit :=
  s <- read ;;
  update (set_bossHp (Z.max 0 (maxHp s - crystalCount s * HP_PER_CRYSTAL cfg))) ;;
  s <- read ;;
  update (set_gameOver (bossHp s <=? 0)).

Definition post_event (now : Z) (reqBody : option Js.value) : M Response :=
  let body := Js.or_empty reqBody in
  if negb (Js.strict_eq_string (Js.prop body "type") "crystal") then
    ret (BadRequest Invalid_event_type)
  else
    match Js.as_array (Js.prop body "slots") with
    | None => ret (BadRequest Invalid_event_slots)
    | Some items =>
        if negb (length items =? SLOT_COUNT)%nat then ret (BadRequest Invalid_event_slots)
        else
          let slots' := map Js.Boolean (firstn SLOT_COUNT items) in
          s <- read ;;
          let prevSlots := slots s in
          let ts := now in
          inserts <- for_each (seq 0 SLOT_COUNT) (diff_slot ts slots' prevSlots) 0 ;;
          update (set_slots slots') ;;
          update (set_crystalCount (count_true slots')) ;;
          s <- read ;;
          when (hpDamageEnabled s) derive_hp ;;
          s <- read ;;
          update (set_totalCrystalsReceived (totalCrystalsReceived s + inserts)) ;;
          s <- read ;;
          updateWLEDFromSlots (slots s) ;;
          broadcastState ;;
          s <- read ;;
          ret (EventOk (bossHp s) (gameOver s) (slots s))
    end.

Definition get_state : M Response :=
  snap <- getState ;;
  ret (StateJson snap).

(** [state.bossHp = Math.min(state.maxHp, Math.floor(hp))] and what follows it. *)
Definition commit_hp (now : Z) (floored : option Z) : M Response :=
  s <- read ;;
  update (set_bossHp (match floored with
                      | Some v => Z.min (maxHp s) v
                      | None => maxHp s      (* Math.floor(Infinity) *)
                      end)) ;;
  s <- read ;;
  update (set_gameOver (bossHp s <=? 0)) ;;
  s <- read ;;
  addEvent (admin_hp (bossHp s) now) ;;
  broadcastState ;;
  s <- read ;;
  ret (HpOk (bossHp s)).

(** The handler's first statement is [Number(req.body?.hp)]; when that
    throws nothing has been assigned yet. *)
Definition post_admin_hp (now : Z) (reqBody : option Js.value) : M Response :=
  match Js.Number js (Js.opt_prop reqBody "hp") with
  | Js.Throws => ret ServerError
  | Js.Returns Js.NaN => ret (BadRequest Invalid_hp)      (* Number.isNaN(hp) *)
  | Js.Returns Js.NegInf => ret (BadRequest Invalid_hp)   (* hp < 0 *)
  | Js.Returns (Js.Fin q) =>
      if negb (Qle_bool 0 q) then ret (BadRequest Invalid_hp)   (* hp < 0 *)
      else commit_hp now (Some (Qfloor q))
  | Js.Returns Js.PosInf => commit_hp now None
  end.

(** [Math.ceil(state.maxHp * 0.05)].  The double nearest to 0.05 is
    [0.05 * (1 + 2^-54)]; for an integer [maxHp] of ordinary size the
    rounded product has the same ceiling as the rational [maxHp / 20]. *)
Definition reduce_damage (s : GameState) : Z :=
  Qceiling (inject_Z (maxHp s) * (5 # 100)).

Definition post_admin_hp_reduce (now : Z) : M Response :=
  s <- read ;;
  let damage := reduce_damage s in
  update (set_bossHp (Z.max 0 (bossHp s - damage))) ;;
  s <- read ;;
  update (set_gameOver (bossHp s <=? 0)) ;;
  s <- read ;;
  addEvent (admin_hp_reduce damage (bossHp s) now) ;;
  broadcastState ;;
  s <- read ;;
  ret (HpReduceOk (bossHp s) damage).

Definition post_admin_hp_damage (now : Z) (reqBody : option Js.value) : M Response :=
  match Js.as_boolean (Js.opt_prop reqBody "enabled") with
  | Some enabled =>
      update (set_hpDamageEnabled enabled) ;;
      when enabled derive_hp ;;
      addEvent (admin_hp_damage enabled now) ;;
      broadcastState ;;
      s <- read ;;
      ret (HpDamageOk (hpDamageEnabled s))
  | None => ret (BadRequest Invalid_enabled)
  end.

Definition post_admin_reset (now : Z) : M Response :=
  s <- read ;;
  update (set_bossHp (maxHp s)) ;;
  update (set_crystalCount 0) ;;
  update (set_totalCrystalsReceived 0) ;;
  update (set_slots (repeat false SLOT_COUNT)) ;;
  update (set_gameOver false) ;;
  update (set_recentEvents []) ;;
  addEvent (admin_reset now) ;;
  s <- read ;;
  updateWLEDFromSlots (slots s) ;;
  broadcastState ;;
  snap <- getState ;;
  ret (ResetOk snap).

Definition post_admin_wled (reqBody : option Js.value) : M Response :=
  let body := Js.or_empty reqBody in
  sendWLED body None ;;
  ret WledOk.

(** ** The process as a transition system *)

Inductive Request : Type :=
| POST_event (body : option Js.value)
| GET_state
| POST_admin_hp (body : option Js.value)
| POST_admin_hp_reduce
| POST_admin_hp_damage (body : option Js.value)
| POST_admin_reset
| POST_admin_wled (body : option Js.value).

(** [now] is the reading of [Date.now()] while the request is handled. *)
Definition handle (now : Z) (r : Request) : M Response :=
  match r with
  | POST_event body => post_event now body
  | GET_state => get_state
  | POST_admin_hp body => post_admin_hp now body
  | POST_admin_hp_reduce => post_admin_hp_reduce now
  | POST_admin_hp_damage body => post_admin_hp_damage now body
  | POST_admin_reset => post_admin_reset now
  | POST_admin_wled body => post_admin_wled body
  end.

(** Node runs one callback at a time: a request handler, or the completion
    of a request to the lighting device. *)
Inductive Action : Type :=
| Handle (now : Z) (r : Request)
| WledCompletes (n : nat).

Definition step (a : Action) (w : World) : World :=
  match a with
  | Handle now r => snd (handle now r w)
  | WledCompletes n => snd (wled_completes n w)
  end.

Definition initial : World :=
  {| state := {| bossHp := BOSS_MAX_HP cfg; maxHp := BOSS_MAX_HP cfg;
                 crystalCount := 0; totalCrystalsReceived := 0;
                 slots := repeat false SLOT_COUNT; recentEvents := [];
                 gameOver := false; hpDamageEnabled := true |};
     wledSegsReady := false; wledSent := []; wledPending := [];
     broadcasts := [] |}.

Definition run (actions : list Action) (w : World) : World :=
  fold_left (fun w' a => step a w') actions w.

Inductive reachable : World -> Prop :=
| reachable_initial : reachable initial
| reachable_step (a : Action) (w : World) : reachable w -> reachable (step a w).

End Server.

(** ** Vocabulary of the statements *)

(** The configuration of the README: 100 HP, 10 HP per crystal, no lighting
    device; and the same with a device configured. *)
Definition default_config : Config :=
  {| BOSS_MAX_HP := 100; HP_PER_CRYSTAL := 10; WLED_URL := "" |}.

Definition lit_config : Config :=
  {| BOSS_MAX_HP := 100; HP_PER_CRYSTAL := 10; WLED_URL := "http://192.168.1.51" |}.

(** The body the firmware posts: [{ type: "crystal", slots: [...], count }]. *)
Definition slot_report (reported : list bool) : option Js.value :=
  Some (Js.Obj [("type", Js.Str "crystal");
                ("slots", Js.Arr (map Js.Bool reported));
                ("count", Js.int (Z.of_nat (length (filter (fun b : bool => b) reported))))]%string).

(** The bodies the admin page posts: [{ hp: v }] and [{ enabled: b }]. *)
Definition hp_body (v : Js.value) : option Js.value :=
  Some (Js.Obj [("hp", v)]%string).

Definition enabled_body (b : bool) : option Js.value :=
  Some (Js.Obj [("enabled", Js.Bool b)]%string).

(** The transitions between two slot vectors, as the specification words
    them: by increasing index, false to true is an insert, true to false a
    remove, anything else nothing. *)
Definition transition_at (damage ts : Z) (previousSlots reportedSlots : list bool)
    (i : nat) : list EventRecord :=
  match nth i previousSlots false, nth i reportedSlots false with
  | false, true => [crystal_insert i damage ts]
  | true, false => [crystal_remove i ts]
  | _, _ => []
  end.

Definition transitions_over (idx : list nat) (damage ts : Z)
    (previousSlots reportedSlots : list bool) : list EventRecord :=
  flat_map (transition_at damage ts previousSlots reportedSlots) idx.

Definition transition_events (damage ts : Z) (previousSlots reportedSlots : list bool)
    : list EventRecord :=
  transitions_over (seq 0 SLOT_COUNT) damage ts previousSlots reportedSlots.

Definition is_insert (ev : EventRecord) : bool :=
  match ev with
  | crystal_insert _ _ _ => true
  | _ => false
  end.

Definition insert_count (evs : list EventRecord) : Z :=
  Z.of_nat (length (filter is_insert evs)).

(** The slot an insert or remove record is about. *)
Definition slot_of (ev : EventRecord) : option nat :=
  match ev with
  | crystal_insert i _ _ | crystal_remove i _ => Some i
  | _ => None
  end.

(** Appending records one after the other, oldest first. *)
Definition push_all (evs log : list EventRecord) : list EventRecord :=
  fold_left (fun log' ev => unshift_pop ev log') evs log.

(** The lighting side of the process. *)
Definition lighting (w : World) : bool * list Js.value * list Callback :=
  (wledSegsReady w, wledSent w, wledPending w).

(** [bossHp == max(0, maxHp - crystalCount * HP_PER_CRYSTAL)] whenever damage is enabled *)
Definition hp_derived (cfg : Config) (s : GameState) : Prop :=
  hpDamageEnabled s = true ->
  bossHp s = Z.max 0 (maxHp s - crystalCount s * HP_PER_CRYSTAL cfg).

(** The requests that write [bossHp] without looking at the slots. *)
Definition overrides_hp (a : Action) : bool :=
  match a with
  | Handle _ (POST_admin_hp _) | Handle _ POST_admin_hp_reduce => true
  | _ => false
  end.

Inductive reachable_without_override (cfg : Config) (js : Js.Engine) : World -> Prop :=
| rwo_initial : reachable_without_override cfg js (initial cfg)
| rwo_step (a : Action) (w : World) :
    reachable_without_override cfg js w ->
    overrides_hp a = false ->
    reachable_without_override cfg js (step cfg js a w).

(** What every reachable state satisfies. *)
Record consistent (cfg : Config) (s : GameState) : Prop := {
  maxHp_fixed : maxHp s = BOSS_MAX_HP cfg;
  bossHp_range : 0 <= bossHp s <= maxHp s;
  gameOver_derived : gameOver s = (bossHp s =? 0);
  log_bounded : (length (recentEvents s) <= MAX_RECENT_EVENTS)%nat;
  slots_length : length (slots s) = SLOT_COUNT;
  crystalCount_derived : crystalCount s = count_true (slots s)
}.

(** ** What each accepted request does to the game state

    Closed forms of the handlers, used to reason about them; the lemmas
    [post_event_accepts], [commit_hp_run] and the like tie each one to its
    handler. *)

Definition reconciled (cfg : Config) (ts : Z) (reported : list bool) (s : GameState) : GameState :=
  let evs := transition_events (HP_PER_CRYSTAL cfg) ts (slots s) reported in
  let hp := if hpDamageEnabled s
            then Z.max 0 (maxHp s - count_true reported * HP_PER_CRYSTAL cfg)
            else bossHp s in
  {| bossHp := hp;
     maxHp := maxHp s;
     crystalCount := count_true reported;
     totalCrystalsReceived := totalCrystalsReceived s + insert_count evs;
     slots := reported;
     recentEvents := push_all evs (recentEvents s);
     gameOver := if hpDamageEnabled s then hp <=? 0 else gameOver s;
     hpDamageEnabled := hpDamageEnabled s |}.

Definition after_hp (now v : Z) (s : GameState) : GameState :=
  let hp := Z.min (maxHp s) v in
  {| bossHp := hp;
     maxHp := maxHp s;
     crystalCount := crystalCount s;
     totalCrystalsReceived := totalCrystalsReceived s;
     slots := slots s;
     recentEvents := unshift_pop (admin_hp hp now) (recentEvents s);
     gameOver := hp <=? 0;
     hpDamageEnabled := hpDamageEnabled s |}.

Definition after_hp_reduce (now : Z) (s : GameState) : GameState :=
  let hp := Z.max 0 (bossHp s - reduce_damage s) in
  {| bossHp := hp;
     maxHp := maxHp s;
     crystalCount := crystalCount s;
     totalCrystalsReceived := totalCrystalsReceived s;
     slots := slots s;
     recentEvents := unshift_pop (admin_hp_reduce (reduce_damage s) hp now) (recentEvents s);
     gameOver := hp <=? 0;
     hpDamageEnabled := hpDamageEnabled s |}.

Definition after_hp_damage (cfg : Config) (now : Z) (enabled : bool) (s : GameState) : GameState :=
  let hp := if enabled
            then Z.max 0 (maxHp s - crystalCount s * HP_PER_CRYSTAL cfg)
            else bossHp s in
  {| bossHp := hp;
     maxHp := maxHp s;
     crystalCount := crystalCount s;
     totalCrystalsReceived := totalCrystalsReceived s;
     slots := slots s;
     recentEvents := unshift_pop (admin_hp_damage enabled now) (recentEvents s);
     gameOver := if enabled then hp <=? 0 else gameOver s;
     hpDamageEnabled := enabled |}.

Definition after_reset (now : Z) (s : GameState) : GameState :=
  {| bossHp := maxHp s;
     maxHp := maxHp s;
     crystalCount := 0;
     totalCrystalsReceived := 0;
     slots := repeat false SLOT_COUNT;
     recentEvents := [admin_reset now];
     gameOver := false;
     hpDamageEnabled := hpDamageEnabled s |}.

(** The ways one action can change the game state. *)
Inductive effect (cfg : Config) : Action -> GameState -> GameState -> Prop :=
| effect_none (a : Action) (s : GameState) :
    effect cfg a s s
| effect_report (now : Z) (body : option Js.value) (reported : list bool) (s : GameState) :
    length reported = SLOT_COUNT ->
    effect cfg (Handle now (POST_event body)) s (reconciled cfg now reported s)
| effect_hp (now : Z) (body : option Js.value) (v : Z) (s : GameState) :
    0 <= v \/ v = maxHp s ->
    effect cfg (Handle now (POST_admin_hp body)) s (after_hp now v s)
| effect_hp_reduce (now : Z) (s : GameState) :
    effect cfg (Handle now POST_admin_hp_reduce) s (after_hp_reduce now s)
| effect_hp_damage (now : Z) (body : option Js.value) (enabled : bool) (s : GameState) :
    effect cfg (Handle now (POST_admin_hp_damage body)) s (after_hp_damage cfg now enabled s)
| effect_reset (now : Z) (s : GameState) :
    effect cfg (Handle now POST_admin_reset) s (after_reset now s).

(** The slots the insert and remove records of a list are about, in order. *)
Definition event_slots (evs : list EventRecord) : list nat :=
  flat_map (fun ev => match slot_of ev with Some i => [i] | None => [] end) evs.

(** [hp < 0] on a double *)
Definition below_zero (n : Js.number) : Prop :=
  match n with
  | Js.Fin q => (q < 0)%Q
  | Js.NegInf => True
  | _ => False
  end.

(** [Math.floor(n)] of a finite double; [top] stands for an infinite one
    under [Math.min(top, _)]. *)
Definition floor_or (top : Z) (n : Js.number) : Z :=
  match n with
  | Js.Fin q => Qfloor q
  | _ => top
  end.

(** The environment gives a positive maximum and a positive damage. *)
Definition well_configured (cfg : Config) : Prop :=
  0 < BOSS_MAX_HP cfg /\ 0 < HP_PER_CRYSTAL cfg.

Definition is_reset (a : Action) : bool :=
  match a with
  | Handle _ POST_admin_reset => true
  | _ => false
  end.

(** ** Vocabulary of the further properties *)

Definition is_remove (ev : EventRecord) : bool :=
  match ev with
  | crystal_remove _ _ => true
  | _ => false
  end.

Definition remove_count (evs : list EventRecord) : Z :=
  Z.of_nat (length (filter is_remove evs)).

(** The actions that are no admin HP, damage-toggle or reset request. *)
Definition slot_traffic (a : Action) : bool :=
  match a with
  | Handle _ (POST_event _) | Handle _ GET_state | Handle _ (POST_admin_wled _)
  | WledCompletes _ => true
  | _ => false
  end.

(** Step 2 of the set-up was sent, and step 1 before it ([wledSent] is
    newest first). *)
Definition setup_sent_in_order (sent : list Js.value) : Prop :=
  exists newer between older, sent = newer ++ init_step2 :: between ++ init_step1 :: older.

(** What a record of the log can look like. *)
Definition record_ok (cfg : Config) (ev : EventRecord) : Prop :=
  match ev with
  | crystal_insert slot damage _ => (slot < SLOT_COUNT)%nat /\ damage = HP_PER_CRYSTAL cfg
  | crystal_remove slot _ => (slot < SLOT_COUNT)%nat
  | admin_hp hp _ => hp <= BOSS_MAX_HP cfg
  | admin_hp_reduce damage hp _ => damage = (BOSS_MAX_HP cfg + 19) / 20 /\ 0 <= hp
  | admin_hp_damage _ _ => True
  | admin_reset _ => True
  end.

(** The same record, one slot further. *)
Definition shift_slot (ev : EventRecord) : EventRecord :=
  match ev with
  | crystal_insert slot damage ts => crystal_insert (S slot) damage ts
  | crystal_remove slot ts => crystal_remove (S slot) ts
  | _ => ev
  end.

(** What the callbacks in flight and the latch promise about what was sent. *)
Definition setup_consistent (w : World) : Prop :=
  (forall reported, In (after_step1 reported) (wledPending w) -> In init_step1 (wledSent w)) /\
  (forall reported, In (after_step2 reported) (wledPending w) ->
                    setup_sent_in_order (wledSent w)) /\
  (wledSegsReady w = true -> setup_sent_in_order (wledSent w)).

(** ** The sensor firmware ([crystalController.ino])

    Seven switches are read every loop; any change asks for a full-state
    report, which is retried every loop until the server answers 200.  The
    readings of the outside world come in as [Inputs], one record per call
    of [loop]. *)

Module Firmware.

Record State : Type := {
  slotState : list bool;                (* current physical state *)
  lastSlotState : list bool;            (* previous loop state *)
  pendingStateSync : bool;              (* send full state on next retry *)
  crystalCount : Z;
  wifiConnected : bool;
  lastWifiCheck : Z;                    (* unsigned long, 32 bits *)
  screen : list (string * string);      (* the two lines of each drawn frame, newest first *)
  posted : list (string * Z)            (* payload and HTTP code of each POST, newest first *)
}.

Record Inputs : Type := {
  millis_read : Z;         (* millis() in the comparison of checkWifi *)
  millis_stamp : Z;        (* millis() in the assignment of checkWifi *)
  wifi_up : bool;          (* WiFi.status() == WL_CONNECTED *)
  low : nat -> bool;       (* digitalRead(switchPins[i]) == LOW *)
  http_code : Z            (* what http.POST returns, if it is called *)
}.

Definition ULONG : Z := 2 ^ 32.

(** [array[i] = v] on an array that has an index [i] *)
Fixpoint assign {A : Type} (i : nat) (v : A) (array : list A) : list A :=
  match array, i with
  | [], _ => []
  | _ :: rest, O => v :: rest
  | x :: rest, S i' => x :: assign i' v rest
  end.

(** The double quote character, for the string literals of the sketch. *)
Definition dq : string := String (Ascii.ascii_of_nat 34) EmptyString.

(** [String(n)] for an [int] *)
Definition decimal (n : Z) : string := NilZero.string_of_int (Z.to_int n).

Definition drawStatus (status : string) (count : Z) (st : State) : State :=
  let line := (status ++ " " ++ decimal count)%string in
  let wifi := ("WiFi: " ++ (if wifiConnected st then "ON" else "OFF"))%string in
  {| slotState := slotState st; lastSlotState := lastSlotState st;
     pendingStateSync := pendingStateSync st; crystalCount := crystalCount st;
     wifiConnected := wifiConnected st; lastWifiCheck := lastWifiCheck st;
     screen := (line, wifi) :: screen st; posted := posted st |}.

Definition boot : State :=
  {| slotState := repeat false 7; lastSlotState := repeat false 7;
     pendingStateSync := false; crystalCount := 0;
     wifiConnected := false; lastWifiCheck := 0;
     screen := []; posted := [] |}.

(** [setup()]: pin modes, display and Wi-Fi start change no variable; the
    boot frame is drawn. *)
Definition setup : State := drawStatus "Booting..." (crystalCount boot) boot.

Definition checkWifi (inp : Inputs) (st : State) : State :=
  if (millis_read inp - lastWifiCheck st) mod ULONG <? 2000 then st
  else
    {| slotState := slotState st; lastSlotState := lastSlotState st;
       pendingStateSync := pendingStateSync st; crystalCount := crystalCount st;
       wifiConnected := wifi_up inp; lastWifiCheck := millis_stamp inp;
       screen := screen st; posted := posted st |}.

(** The body of the loop over the seven switches. *)
Definition readSwitch (inp : Inputs) (st : State) (i : nat) : State :=
  let pressed := low inp i in
  let slotState' := assign i pressed (slotState st) in
  let pending := if negb (Bool.eqb (nth i slotState' false) (nth i (lastSlotState st) false))
                 then true else pendingStateSync st in
  let lastSlotState' := assign i (nth i slotState' false) (lastSlotState st) in
  {| slotState := slotState'; lastSlotState := lastSlotState';
     pendingStateSync := pending;
     crystalCount := if nth i slotState' false then crystalCount st + 1 else crystalCount st;
     wifiConnected := wifiConnected st; lastWifiCheck := lastWifiCheck st;
     screen := screen st; posted := posted st |}.

(** ["[true,false,...]"] *)
Definition slotsJson (slots : list bool) : string :=
  ("[" ++ fold_left (fun acc i =>
            acc ++ (if (0 <? i)%nat then "," else "")
                ++ (if nth i slots false then "true" else "false"))
          (seq 0 7) ""
       ++ "]")%string.

Definition payload (slots : list bool) (count : Z) : string :=
  ("{ " ++ dq ++ "type" ++ dq ++ ": " ++ dq ++ "crystal" ++ dq ++ ", "
        ++ dq ++ "slots" ++ dq ++ ": " ++ slotsJson slots ++ ", "
        ++ dq ++ "count" ++ dq ++ ": " ++ decimal count ++ " }")%string.

(** [sendCrystalEvent()], with its result *)
Definition sendCrystalEvent (inp : Inputs) (st : State) : bool * State :=
  let code := http_code inp in
  let st1 :=
    {| slotState := slotState st; lastSlotState := lastSlotState st;
       pendingStateSync := pendingStateSync st; crystalCount := crystalCount st;
       wifiConnected := wifiConnected st; lastWifiCheck := lastWifiCheck st;
       screen := screen st;
       posted := (payload (slotState st) (crystalCount st), code) :: posted st |} in
  let st2 := if code =? 200 then drawStatus "Sent" (crystalCount st1) st1
             else drawStatus ("Err " ++ decimal code) (crystalCount st1) st1 in
  (code =? 200, st2).

Definition retryPending (inp : Inputs) (st : State) : State :=
  if negb (pendingStateSync st) then st
  else
    let (sent, st') := sendCrystalEvent inp st in
    if sent then
      {| slotState := slotState st'; lastSlotState := lastSlotState st';
         pendingStateSync := false; crystalCount := crystalCount st';
         wifiConnected := wifiConnected st'; lastWifiCheck := lastWifiCheck st';
         screen := screen st'; posted := posted st' |}
    else st'.

Definition loop (inp : Inputs) (st : State) : State :=
  let st := checkWifi inp st in
  let st := {| slotState := slotState st; lastSlotState := lastSlotState st;
               pendingStateSync := pendingStateSync st; crystalCount := 0;
               wifiConnected := wifiConnected st; lastWifiCheck := lastWifiCheck st;
               screen := screen st; posted := posted st |} in
  let st := fold_left (readSwitch inp) (seq 0 7) st in
  let st := drawStatus "Live Count" (crystalCount st) st in
  if wifiConnected st then retryPending inp st else st.

Definition loops (inputs : list Inputs) (st : State) : State :=
  fold_left (fun st' inp => loop inp st') inputs st.

(** The payload of the newest POST that was answered 200. *)
Definition last_acknowledged (st : State) : option string :=
  match find (fun p => snd p =? 200) (posted st) with
  | Some (body, _) => Some body
  | None => None
  end.

(** Whether a reading differs from the previous loop's. *)
Definition changed (inp : Inputs) (st : State) : bool :=
  existsb (fun i => negb (Bool.eqb (low inp i) (nth i (lastSlotState st) false))) (seq 0 7).

Definition well_formed (st : State) : Prop :=
  length (slotState st) = 7%nat /\ length (lastSlotState st) = 7%nat.

(** Whether switch [i] reads differently from the previous pass. *)
Definition differs (inp : Inputs) (st : State) (i : nat) : bool :=
  negb (Bool.eqb (low inp i) (nth i (lastSlotState st) false)).

(** What holds between two passes of [loop]. *)
Definition in_step (st : State) : Prop :=
  well_formed st /\
  lastSlotState st = slotState st /\
  crystalCount st = count_true (slotState st) /\
  (pendingStateSync st = false ->
   last_acknowledged st = Some (payload (slotState st) (crystalCount st)) \/
   (last_acknowledged st = None /\ slotState st = repeat false 7)).

(** A pass with the switch of slot 2 closed, Wi-Fi up and the server
    answering 200; and two readings of the clock, one second before the
    32-bit counter wraps and 1.5 seconds after. *)
Definition slot2_closed : Inputs :=
  {| millis_read := 2500; millis_stamp := 2500; wifi_up := true;
     low := fun i => Nat.eqb i 2; http_code := 200 |}.

Definition before_wrap : Inputs :=
  {| millis_read := 4294966296; millis_stamp := 4294966296; wifi_up := false;
     low := fun _ => false; http_code := 200 |}.

Definition after_wrap : Inputs :=
  {| millis_read := 1500; millis_stamp := 1500; wifi_up := true;
     low := fun _ => false; http_code := 200 |}.

End Firmware.

(** ** The earlier variant of the server

    [server.js] opens with the first version of the server, in which the
    sensor posts one [{ type: "crystal", slot }] per inserted crystal, the
    state has no slot vector, and the lighting shows the HP tier.  It shares
    [addEvent] and the configuration with the later one. *)

Module Legacy.

Inductive EventRecord : Type :=
| crystal_ignored (slot : Z)                    (* { type: 'crystal', slot, ignored: true, reason: 'game over' } *)
| crystal (slot : Z) (damage : Z) (ts : Z)
| admin_hp (hp : Z) (ts : Z)
| admin_reset (ts : Z).

Record State : Type := {
  bossHp : Z;
  maxHp : Z;
  crystalCount : Z;
  totalCrystalsReceived : Z;
  recentEvents : list EventRecord;
  gameOver : bool
}.

Record World : Type := {
  state : State;
  wledSent : list Js.value;     (* request bodies POSTed to the device, newest first *)
  broadcasts : list State       (* snapshots emitted to the observers, newest first *)
}.

Inductive ErrorMsg : Type :=
| Invalid_event_type     (* 'Invalid event: need type <crystal> and slot number' *)
| Invalid_event_slot     (* 'Invalid event: slot must be a number' *)
| Invalid_hp.            (* 'Invalid hp' *)

Inductive Response : Type :=
| BadRequest (error : ErrorMsg)            (* 400 { ok: false, error } *)
| EventIgnored                             (* { ok: true, gameOver: true } *)
| EventOk (bossHp : Z) (gameOver : bool)   (* { ok: true, bossHp, gameOver } *)
| StateJson (snap : State)                 (* getState() *)
| HpOk (bossHp : Z)                        (* { ok: true, bossHp } *)
| ResetOk (snap : State)                   (* { ok: true, ...getState() } *)
| WledOk                                   (* { ok: true } *)
| ServerError.                             (* 500: the handler threw, Express's error handler answers *)

Definition status (r : Response) : nat :=
  match r with
  | BadRequest _ => 400
  | ServerError => 500
  | _ => 200
  end.

Section Server.

Variable cfg : Config.
Variable js : Js.Engine.

(** [state.recentEvents.unshift(ev); if (length > MAX_RECENT_EVENTS) pop()] *)
Definition push (ev : EventRecord) (log : list EventRecord) : list EventRecord :=
  let log' := ev :: log in
  if (MAX_RECENT_EVENTS <? length log')%nat then removelast log' else log'.

Definition addEvent (ev : EventRecord) (w : World) : World :=
  let s := state w in
  {| state := {| bossHp := bossHp s; maxHp := maxHp s; crystalCount := crystalCount s;
                 totalCrystalsReceived := totalCrystalsReceived s;
                 recentEvents := push ev (recentEvents s); gameOver := gameOver s |};
     wledSent := wledSent w; broadcasts := broadcasts w |}.

Definition broadcastState (w : World) : World :=
  {| state := state w; wledSent := wledSent w; broadcasts := state w :: broadcasts w |}.

Definition sendWLED (json : Js.value) (w : World) : World :=
  if String.eqb (WLED_URL cfg) "" then w
  else {| state := state w; wledSent := json :: wledSent w; broadcasts := broadcasts w |}.

(** [{ on: true, bri, seg: [{ col: [[r, g, b]], fx }] }] *)
Definition tier_command (bri r g b fx : Z) : Js.value :=
  Js.Obj [("on", Js.Bool true); ("bri", Js.int bri);
          ("seg", Js.Arr [Js.Obj [("col", Js.Arr [Js.Arr [Js.int r; Js.int g; Js.int b]]);
                                  ("fx", Js.int fx)]])]%string.

(** [state.maxHp ? (state.bossHp / state.maxHp) * 100 : 0].  For integers of
    ordinary size the double has the same order with 66 and with 33 as the
    rational: off the two boundaries the rounding error is far smaller than
    the distance [1 / maxHp], and on them [0.66 * 100] and [0.33 * 100]
    round to 66 and 33. *)
Definition percent (s : State) : Q :=
  if maxHp s =? 0 then 0%Q
  else (inject_Z (bossHp s) / inject_Z (maxHp s) * 100)%Q.

Definition updateWLEDFromHp (w : World) : World :=
  if String.eqb (WLED_URL cfg) "" then w
  else
    let s := state w in
    let pct := percent s in
    if gameOver s || (bossHp s <=? 0) then sendWLED (tier_command 255 255 0 0 1) w
    else if negb (Qle_bool pct 66) then sendWLED (tier_command 200 0 255 0 0) w
    else if negb (Qle_bool pct 33) then sendWLED (tier_command 220 255 200 0 0) w
    else sendWLED (tier_command 255 255 0 0 0) w.

Definition with_state (s : State) (w : World) : World :=
  {| state := s; wledSent := wledSent w; broadcasts := broadcasts w |}.

(** [Math.max(0, Math.min(6, Math.floor(slotNum)))] for a number that is not NaN *)
Definition clamp_slot (n : Js.number) : Z :=
  match n with
  | Js.Fin q => Z.max 0 (Z.min 6 (Qfloor q))
  | Js.PosInf => 6
  | _ => 0
  end.

Definition post_event (now : Z) (reqBody : option Js.value) (w : World) : Response * World :=
  let body := Js.or_empty reqBody in
  if negb (Js.strict_eq_string (Js.prop body "type") "crystal") then
    (BadRequest Invalid_event_type, w)
  else
    match Js.Number js (Js.prop body "slot") with
    | Js.Throws => (ServerError, w)       (* nothing was assigned yet *)
    | Js.Returns Js.NaN => (BadRequest Invalid_event_slot, w)
    | Js.Returns slotNum =>
        let slot := clamp_slot slotNum in
        if gameOver (state w) then
          (EventIgnored, broadcastState (addEvent (crystal_ignored slot) w))
        else
          let s := state w in
          let damage := HP_PER_CRYSTAL cfg in
          let hp := Z.max 0 (bossHp s - damage) in
          let s' := {| bossHp := hp; maxHp := maxHp s;
                       crystalCount := crystalCount s + 1;
                       totalCrystalsReceived := totalCrystalsReceived s + 1;
                       recentEvents := recentEvents s;
                       gameOver := if hp <=? 0 then true else gameOver s |} in
          let w' := broadcastState
                      (updateWLEDFromHp (addEvent (crystal slot damage now) (with_state s' w))) in
          (EventOk (bossHp (state w')) (gameOver (state w')), w')
    end.

Definition get_state (w : World) : Response * World := (StateJson (state w), w).

Definition post_admin_hp (now : Z) (reqBody : option Js.value) (w : World) : Response * World :=
  let commit (floored : Z) :=
    let s := state w in
    let hp := Z.min (maxHp s) floored in
    let s' := {| bossHp := hp; maxHp := maxHp s; crystalCount := crystalCount s;
                 totalCrystalsReceived := totalCrystalsReceived s;
                 recentEvents := recentEvents s; gameOver := hp <=? 0 |} in
    let w' := broadcastState (updateWLEDFromHp (addEvent (admin_hp hp now) (with_state s' w))) in
    (HpOk (bossHp (state w')), w') in
  match Js.Number js (Js.opt_prop reqBody "hp") with
  | Js.Throws => (ServerError, w)              (* nothing was assigned yet *)
  | Js.Returns Js.NaN => (BadRequest Invalid_hp, w)
  | Js.Returns Js.NegInf => (BadRequest Invalid_hp, w)
  | Js.Returns (Js.Fin q) =>
      if negb (Qle_bool 0 q) then (BadRequest Invalid_hp, w) else commit (Qfloor q)
  | Js.Returns Js.PosInf => commit (maxHp (state w))      (* Math.min(maxHp, Infinity) *)
  end.

Definition post_admin_reset (now : Z) (w : World) : Response * World :=
  let s := state w in
  let s' := {| bossHp := maxHp s; maxHp := maxHp s; crystalCount := 0;
               totalCrystalsReceived := 0; recentEvents := []; gameOver := false |} in
  let w' := broadcastState (updateWLEDFromHp (addEvent (admin_reset now) (with_state s' w))) in
  (ResetOk (state w'), w').

Definition post_admin_wled (reqBody : option Js.value) (w : World) : Response * World :=
  (WledOk, sendWLED (Js.or_empty reqBody) w).

Inductive Request : Type :=
| POST_event (body : option Js.value)
| GET_state
| POST_admin_hp (body : option Js.value)
| POST_admin_reset
| POST_admin_wled (body : option Js.value).

Definition handle (now : Z) (r : Request) (w : World) : Response * World :=
  match r with
  | POST_event body => post_event now body w
  | GET_state => get_state w
  | POST_admin_hp body => post_admin_hp now body w
  | POST_admin_reset => post_admin_reset now w
  | POST_admin_wled body => post_admin_wled body w
  end.

Definition initial : World :=
  {| state := {| bossHp := BOSS_MAX_HP cfg; maxHp := BOSS_MAX_HP cfg;
                 crystalCount := 0; totalCrystalsReceived := 0;
                 recentEvents := []; gameOver := false |};
     wledSent := []; broadcasts := [] |}.

Definition run (requests : list (Z * Request)) (w : World) : World :=
  fold_left (fun w' r => snd (handle (fst r) (snd r) w')) requests w.

End Server.

(** [{ type: "crystal", slot: n }] *)
Definition crystal_body (slot : Js.value) : option Js.value :=
  Some (Js.Obj [("type", Js.Str "crystal"); ("slot", slot)]%string).

(** The requests other than [POST /admin/hp]. *)
Definition no_admin_hp (r : Z * Request) : bool :=
  match snd r with
  | POST_admin_hp _ => false
  | _ => true
  end.

(** What a request does to the game state. *)
Inductive effect (cfg : Config) : Z * Request -> State -> State -> Prop :=
| effect_none r s : effect cfg r s s
| effect_ignored now body slot s :
    gameOver s = true ->
    0 <= slot <= 6 ->
    effect cfg (now, POST_event body) s
      {| bossHp := bossHp s; maxHp := maxHp s; crystalCount := crystalCount s;
         totalCrystalsReceived := totalCrystalsReceived s;
         recentEvents := push (crystal_ignored slot) (recentEvents s);
         gameOver := gameOver s |}
| effect_hit now body slot s :
    gameOver s = false ->
    0 <= slot <= 6 ->
    effect cfg (now, POST_event body) s
      {| bossHp := Z.max 0 (bossHp s - HP_PER_CRYSTAL cfg); maxHp := maxHp s;
         crystalCount := crystalCount s + 1;
         totalCrystalsReceived := totalCrystalsReceived s + 1;
         recentEvents := push (crystal slot (HP_PER_CRYSTAL cfg) now) (recentEvents s);
         gameOver := Z.max 0 (bossHp s - HP_PER_CRYSTAL cfg) <=? 0 |}
| effect_hp now body v s :
    0 <= v \/ v = maxHp s ->
    effect cfg (now, POST_admin_hp body) s
      {| bossHp := Z.min (maxHp s) v; maxHp := maxHp s; crystalCount := crystalCount s;
         totalCrystalsReceived := totalCrystalsReceived s;
         recentEvents := push (admin_hp (Z.min (maxHp s) v) now) (recentEvents s);
         gameOver := Z.min (maxHp s) v <=? 0 |}
| effect_reset now s :
    effect cfg (now, POST_admin_reset) s
      {| bossHp := maxHp s; maxHp := maxHp s; crystalCount := 0;
         totalCrystalsReceived := 0; recentEvents := [admin_reset now];
         gameOver := false |}.

(** The HP follows the crystal count as long as no admin sets it. *)
Definition hp_by_count (cfg : Config) (s : State) : Prop :=
  bossHp s = Z.max 0 (maxHp s - crystalCount s * HP_PER_CRYSTAL cfg) /\
  (crystalCount s = 0 \/ (crystalCount s - 1) * HP_PER_CRYSTAL cfg < maxHp s).

(** What every state reached from [initial] satisfies. *)
Record consistent (cfg : Config) (s : State) : Prop := {
  maxHp_fixed : maxHp s = BOSS_MAX_HP cfg;
  bossHp_range : 0 <= bossHp s <= maxHp s;
  gameOver_derived : gameOver s = (bossHp s =? 0);
  counters_equal : totalCrystalsReceived s = crystalCount s;
  counters_nonneg : 0 <= crystalCount s;
  log_bounded : (length (recentEvents s) <= MAX_RECENT_EVENTS)%nat
}.

End Legacy.

(** * Proofs *)

(** ** The scenarios of the specification, run on the model *)

Example scenario_insert_remove :
  map (fun reports =>
         let s := state (run default_config Js.digits_engine
                           (map (fun r => Handle 0 (POST_event (slot_report r))) reports)
                           (initial default_config)) in
         (bossHp s, crystalCount s))
      [[repeat false 7; [true; false; true; false; false; false; false]];
       [repeat false 7; [true; false; true; false; false; false; false];
        [false; false; true; false; false; false; false]];
       [repeat false 7; [true; false; true; false; false; false; false];
        [false; false; true; false; false; false; false];
        [false; true; true; true; true; true; true]]]
  = [(80, 2); (90, 1); (40, 6)].
Proof. vm_compute. reflexivity. Qed.

Example scenario_all_filled :
  let once := state (run default_config Js.digits_engine
                       [Handle 0 (POST_event (slot_report (repeat true 7)))]
                       (initial default_config)) in
  let twice := state (run default_config Js.digits_engine
                        [Handle 0 (POST_event (slot_report (repeat true 7)));
                         Handle 1 (POST_event (slot_report (repeat true 7)))]
                        (initial default_config)) in
  bossHp once = 30 /\ twice = once.
Proof. vm_compute. split; reflexivity. Qed.

Example scenario_reduce_twice :
  bossHp (state (run default_config Js.digits_engine
                   [Handle 0 POST_admin_hp_reduce; Handle 1 POST_admin_hp_reduce]
                   (initial default_config))) = 90.
Proof. vm_compute. reflexivity. Qed.

(** The first slot report starts the two-step set-up of the device; the
    latch closes when the second step completes, and the reset that follows
    sends one command and no set-up. *)
Example scenario_lighting_setup :
  let w1 := run lit_config Js.digits_engine
              [Handle 0 (POST_event (slot_report (repeat false 7)))] (initial lit_config) in
  let w2 := step lit_config Js.digits_engine (WledCompletes 0) w1 in
  let w3 := step lit_config Js.digits_engine (WledCompletes 0) w2 in
  let w4 := step lit_config Js.digits_engine (Handle 1 POST_admin_reset) w3 in
  lighting w1 = (false, [init_step1], [after_step1 (repeat false 7)]) /\
  lighting w2 = (false, [init_step2; init_step1], [after_step2 (repeat false 7)]) /\
  lighting w3 = (true, [slots_command (repeat false 7); init_step2; init_step1], []) /\
  lighting w4 = (true, [slots_command (repeat false 7); slots_command (repeat false 7);
                        init_step2; init_step1], []).
Proof. vm_compute. repeat split. Qed.

(** An [hp] that cannot be converted: on [{ hp: { toString: 1 } }], and on an
    array that holds such an object, [Number] throws; the answer is 500 and
    nothing changes.  An object without an own [toString] converts to NaN
    and is answered 400. *)
Example scenario_set_hp_unconvertible :
  let thrower := Js.Obj [("toString"%string, Js.int 1)] in
  let w := initial default_config in
  handle default_config Js.digits_engine 1 (POST_admin_hp (hp_body thrower)) w
    = (ServerError, w) /\
  handle default_config Js.digits_engine 1 (POST_admin_hp (hp_body (Js.Arr [Js.Null; thrower]))) w
    = (ServerError, w) /\
  handle default_config Js.digits_engine 1
    (POST_admin_hp (hp_body (Js.Obj [("valueOf"%string, Js.int 1)]))) w
    = (BadRequest Invalid_hp, w) /\
  status ServerError = 500%nat.
Proof. vm_compute. repeat split. Qed.


(** ** The event log *)

Lemma unshift_pop_firstn ev log :
  (length log <= MAX_RECENT_EVENTS)%nat ->
  unshift_pop ev log = firstn MAX_RECENT_EVENTS (ev :: log).
Proof.
  intros Hlen. unfold unshift_pop. cbv zeta.
  destruct (Nat.ltb_spec MAX_RECENT_EVENTS (length (ev :: log))) as [Hfull | Hroom].
  - rewrite removelast_firstn_len.
    f_equal. simpl in *. lia.
  - symmetry. apply firstn_all2. exact Hroom.
Qed.

Lemma unshift_pop_length ev log :
  (length log <= MAX_RECENT_EVENTS)%nat ->
  (length (unshift_pop ev log) <= MAX_RECENT_EVENTS)%nat.
Proof.
  intros Hlen. rewrite unshift_pop_firstn by exact Hlen.
  rewrite length_firstn. lia.
Qed.

Lemma firstn_app_firstn {A : Type} (n : nat) (a b : list A) :
  firstn n (a ++ firstn n b) = firstn n (a ++ b).
Proof.
  rewrite !firstn_app, firstn_firstn.
  f_equal. f_equal. lia.
Qed.

Lemma push_all_firstn evs : forall log,
  (length log <= MAX_RECENT_EVENTS)%nat ->
  push_all evs log = firstn MAX_RECENT_EVENTS (rev evs ++ log).
Proof.
  induction evs as [| ev evs IH]; intros log Hlen.
  - cbn [push_all fold_left rev app]. symmetry. apply firstn_all2. exact Hlen.
  - change (push_all (ev :: evs) log) with (push_all evs (unshift_pop ev log)).
    rewrite IH by (apply unshift_pop_length; exact Hlen).
    rewrite unshift_pop_firstn by exact Hlen.
    rewrite firstn_app_firstn.
    cbn [rev]. rewrite <- app_assoc. reflexivity.
Qed.

Lemma push_all_length evs log :
  (length log <= MAX_RECENT_EVENTS)%nat ->
  (length (push_all evs log) <= MAX_RECENT_EVENTS)%nat.
Proof.
  intros Hlen. rewrite push_all_firstn by exact Hlen.
  rewrite length_firstn. lia.
Qed.

Lemma push_all_app evs1 evs2 log :
  push_all (evs1 ++ evs2) log = push_all evs2 (push_all evs1 log).
Proof. unfold push_all. apply fold_left_app. Qed.


Lemma insert_count_app evs1 evs2 :
  insert_count (evs1 ++ evs2) = insert_count evs1 + insert_count evs2.
Proof.
  unfold insert_count. rewrite filter_app, length_app. lia.
Qed.

Lemma with_state_compose f g w :
  with_state f (with_state g w) = with_state (fun s => f (g s)) w.
Proof. reflexivity. Qed.

Section Loop.
Variable cfg : Config.

Lemma diff_slot_run ts reported prev i acc w :
  diff_slot cfg ts reported prev i acc w =
  (acc + insert_count (transition_at (HP_PER_CRYSTAL cfg) ts prev reported i),
   with_state (fun s => set_recentEvents
      (push_all (transition_at (HP_PER_CRYSTAL cfg) ts prev reported i) (recentEvents s)) s) w).
Proof.
  unfold diff_slot, transition_at.
  destruct (nth i reported false), (nth i prev false); cbn [andb negb];
    destruct w as [[] ? ? ? ?];
    cbn -[unshift_pop Z.add]; rewrite ?Z.add_0_r; reflexivity.
Qed.

Lemma for_each_diff_slot ts reported prev idx : forall acc w,
  for_each idx (diff_slot cfg ts reported prev) acc w =
  (acc + insert_count (transitions_over idx (HP_PER_CRYSTAL cfg) ts prev reported),
   with_state (fun s => set_recentEvents
      (push_all (transitions_over idx (HP_PER_CRYSTAL cfg) ts prev reported) (recentEvents s)) s) w).
Proof.
  induction idx as [| i idx IH]; intros acc w.
  - destruct w as [[] ? ? ? ?]. cbn. rewrite Z.add_0_r. reflexivity.
  - cbn [for_each]. unfold bind. rewrite diff_slot_run. cbn [fst snd].
    rewrite IH, with_state_compose.
    unfold transitions_over. cbn [flat_map].
    rewrite insert_count_app. f_equal; [lia |].
    destruct w as [[hp mx cc tot sl log go en] rdy snt pnd bc].
    unfold with_state. cbn [state recentEvents set_recentEvents].
    rewrite push_all_app. reflexivity.
Qed.
End Loop.

(** ** The handlers, one by one *)

Section Handlers.
Variable cfg : Config.
Variable js : Js.Engine.

Lemma sendWLED_state json cb w :
  state (snd (sendWLED cfg json cb w)) = state w /\
  broadcasts (snd (sendWLED cfg json cb w)) = broadcasts w.
Proof.
  unfold sendWLED. destruct (String.eqb (WLED_URL cfg) ""); split; reflexivity.
Qed.

Lemma updateWLEDFromSlots_state sl w :
  state (snd (updateWLEDFromSlots cfg sl w)) = state w /\
  broadcasts (snd (updateWLEDFromSlots cfg sl w)) = broadcasts w.
Proof.
  unfold updateWLEDFromSlots, initWLEDSegments, bind, read_wledSegsReady.
  destruct (String.eqb (WLED_URL cfg) ""); [split; reflexivity |].
  cbn [fst snd]. destruct (wledSegsReady w); apply sendWLED_state.
Qed.

Lemma post_event_accepts now body items w :
  Js.strict_eq_string (Js.prop (Js.or_empty body) "type") "crystal" = true ->
  Js.as_array (Js.prop (Js.or_empty body) "slots") = Some items ->
  length items = SLOT_COUNT ->
  let s' := reconciled cfg now (map Js.Boolean items) (state w) in
  fst (post_event cfg now body w) = EventOk (bossHp s') (gameOver s') (slots s') /\
  state (snd (post_event cfg now body w)) = s'.
Proof.
  intros Htype Hslots Hlen. unfold reconciled. cbv zeta.
  split; unfold post_event; cbv zeta;
    rewrite Htype, Hslots, Hlen, Nat.eqb_refl; cbn [negb];
    rewrite firstn_all2 by lia;
    unfold bind at 1; unfold read at 1 2; cbn [fst snd];
    unfold bind at 1; rewrite !for_each_diff_slot; cbn [fst snd];
    fold (transition_events (HP_PER_CRYSTAL cfg) now (slots (state w)) (map Js.Boolean items));
    generalize (transition_events (HP_PER_CRYSTAL cfg) now (slots (state w)) (map Js.Boolean items));
    intros evs;
    unfold updateWLEDFromSlots, initWLEDSegments, sendWLED;
    destruct w as [[hp mx cc tot sl log go en] rdy snt pnd bc];
    destruct (String.eqb (WLED_URL cfg) ""), en, rdy;
    cbn -[Z.max Z.mul Z.sub Z.add Z.leb push_all count_true insert_count];
    rewrite ?Z.add_0_l; reflexivity.
Qed.

Lemma post_event_cases now body w :
  (exists e, post_event cfg now body w = (BadRequest e, w)) \/
  (exists items,
      Js.strict_eq_string (Js.prop (Js.or_empty body) "type") "crystal" = true /\
      Js.as_array (Js.prop (Js.or_empty body) "slots") = Some items /\
      length items = SLOT_COUNT).
Proof.
  unfold post_event. cbv zeta.
  destruct (Js.strict_eq_string _ _); cbn [negb]; [| left; eexists; reflexivity].
  destruct (Js.as_array _) as [items |]; [| left; eexists; reflexivity].
  destruct (Nat.eqb_spec (length items) SLOT_COUNT) as [Hlen | Hlen]; cbn [negb].
  - right. exists items. auto.
  - left. eexists. reflexivity.
Qed.

Ltac run_handler w :=
  unfold updateWLEDFromSlots, initWLEDSegments, sendWLED;
  destruct (String.eqb (WLED_URL cfg) "");
  destruct w as [[hp mx cc tot sl log go en] rdy snt pnd bc];
  destruct rdy;
  cbn -[Z.max Z.min Z.mul Z.sub Z.add Z.leb unshift_pop push_all count_true
        insert_count reduce_damage repeat SLOT_COUNT];
  try reflexivity.

Lemma unshift_pop_nil ev : unshift_pop ev [] = [ev].
Proof. reflexivity. Qed.

Lemma commit_hp_run now floored w :
  let v := match floored with Some v => v | None => maxHp (state w) end in
  fst (commit_hp now floored w) = HpOk (bossHp (after_hp now v (state w))) /\
  state (snd (commit_hp now floored w)) = after_hp now v (state w) /\
  lighting (snd (commit_hp now floored w)) = lighting w.
Proof.
  unfold commit_hp, after_hp, lighting. cbv zeta.
  destruct floored as [v |]; run_handler w; rewrite ?Z.min_id; auto.
Qed.

Lemma post_admin_hp_reduce_run now w :
  fst (post_admin_hp_reduce now w) =
    HpReduceOk (bossHp (after_hp_reduce now (state w))) (reduce_damage (state w)) /\
  state (snd (post_admin_hp_reduce now w)) = after_hp_reduce now (state w) /\
  lighting (snd (post_admin_hp_reduce now w)) = lighting w.
Proof.
  unfold post_admin_hp_reduce, after_hp_reduce, lighting. cbv zeta.
  run_handler w; auto.
Qed.

Lemma post_admin_hp_damage_run now body enabled w :
  Js.as_boolean (Js.opt_prop body "enabled") = Some enabled ->
  fst (post_admin_hp_damage cfg now body w) = HpDamageOk enabled /\
  state (snd (post_admin_hp_damage cfg now body w)) = after_hp_damage cfg now enabled (state w) /\
  lighting (snd (post_admin_hp_damage cfg now body w)) = lighting w.
Proof.
  intros Hen. unfold post_admin_hp_damage, after_hp_damage, lighting. rewrite Hen. cbv zeta.
  destruct enabled; run_handler w; auto.
Qed.

Lemma post_admin_reset_run now w :
  fst (post_admin_reset cfg now w) = ResetOk (after_reset now (state w)) /\
  state (snd (post_admin_reset cfg now w)) = after_reset now (state w).
Proof.
  unfold post_admin_reset, after_reset. run_handler w; rewrite unshift_pop_nil; auto.
Qed.

Lemma run_callback_state k w :
  state (snd (run_callback cfg k w)) = state w.
Proof.
  destruct k; unfold run_callback; run_handler w.
Qed.

Lemma wled_completes_state n w :
  state (snd (wled_completes cfg n w)) = state w.
Proof.
  unfold wled_completes. destruct (nth_error (wledPending w) n); [| reflexivity].
  rewrite run_callback_state. reflexivity.
Qed.

Lemma post_admin_wled_state body w :
  state (snd (post_admin_wled cfg body w)) = state w.
Proof.
  unfold post_admin_wled. generalize (Js.or_empty body). intros v. run_handler w.
Qed.
Lemma post_admin_hp_cases now body w :
  let r := Js.Number js (Js.opt_prop body "hp") in
  (r = Js.Throws /\ post_admin_hp js now body w = (ServerError, w)) \/
  (exists n, r = Js.Returns n /\ (n = Js.NaN \/ below_zero n) /\
     post_admin_hp js now body w = (BadRequest Invalid_hp, w)) \/
  (exists n, r = Js.Returns n /\ ~ (n = Js.NaN \/ below_zero n) /\
     (0 <= floor_or (maxHp (state w)) n \/ n = Js.PosInf) /\
     fst (post_admin_hp js now body w)
       = HpOk (bossHp (after_hp now (floor_or (maxHp (state w)) n) (state w))) /\
     state (snd (post_admin_hp js now body w))
       = after_hp now (floor_or (maxHp (state w)) n) (state w) /\
     lighting (snd (post_admin_hp js now body w)) = lighting w).
Proof.
  unfold post_admin_hp. cbv zeta.
  destruct (Js.Number js (Js.opt_prop body "hp")) as [[| q | |] |].
  - right. left. exists Js.NaN. auto.
  - destruct (Qle_bool 0 q) eqn:Hq; cbn [negb].
    + right. right. exists (Js.Fin q). cbn [below_zero floor_or].
      apply Qle_bool_iff in Hq.
      split; [reflexivity |].
      split; [intros [H | H]; [discriminate | apply Qlt_not_le in H; contradiction] |].
      split; [left; change 0 with (Qfloor 0); apply Qfloor_resp_le; exact Hq |].
      apply (commit_hp_run now (Some (Qfloor q)) w).
    + right. left. exists (Js.Fin q). cbn [below_zero].
      split; [reflexivity |]. split; [| reflexivity]. right.
      apply Qnot_le_lt. intros Hle. apply Qle_bool_iff in Hle. congruence.
  - right. right. exists Js.PosInf. cbn [below_zero floor_or].
    split; [reflexivity |].
    split; [intros [H | H]; [discriminate | exact H] |].
    split; [right; reflexivity |].
    apply (commit_hp_run now None w).
  - right. left. exists Js.NegInf. cbn [below_zero]. auto.
  - left. auto.
Qed.

Lemma post_admin_hp_damage_cases now body w :
  (Js.as_boolean (Js.opt_prop body "enabled") = None /\
   post_admin_hp_damage cfg now body w = (BadRequest Invalid_enabled, w)) \/
  (exists enabled,
     Js.as_boolean (Js.opt_prop body "enabled") = Some enabled /\
     fst (post_admin_hp_damage cfg now body w) = HpDamageOk enabled /\
     state (snd (post_admin_hp_damage cfg now body w)) = after_hp_damage cfg now enabled (state w) /\
     lighting (snd (post_admin_hp_damage cfg now body w)) = lighting w).
Proof.
  destruct (Js.as_boolean (Js.opt_prop body "enabled")) as [enabled |] eqn:Hen.
  - right. exists enabled. split; [reflexivity |].
    apply post_admin_hp_damage_run. exact Hen.
  - left. split; [reflexivity |]. unfold post_admin_hp_damage. rewrite Hen. reflexivity.
Qed.

Lemma post_admin_wled_lighting body w :
  lighting (snd (post_admin_wled cfg body w)) =
  (wledSegsReady w,
   (if String.eqb (WLED_URL cfg) "" then wledSent w else Js.or_empty body :: wledSent w),
   wledPending w).
Proof.
  unfold post_admin_wled, lighting. generalize (Js.or_empty body). intros v. run_handler w.
Qed.

Lemma updateWLEDFromSlots_lighting reported w :
  lighting (snd (updateWLEDFromSlots cfg reported w)) =
  if String.eqb (WLED_URL cfg) "" then lighting w
  else if wledSegsReady w
       then (true, slots_command reported :: wledSent w, wledPending w)
       else (false, init_step1 :: wledSent w, wledPending w ++ [after_step1 reported]).
Proof.
  unfold lighting. run_handler w.
Qed.

Lemma post_event_lighting now body items w :
  Js.strict_eq_string (Js.prop (Js.or_empty body) "type") "crystal" = true ->
  Js.as_array (Js.prop (Js.or_empty body) "slots") = Some items ->
  length items = SLOT_COUNT ->
  lighting (snd (post_event cfg now body w)) =
  lighting (snd (updateWLEDFromSlots cfg (map Js.Boolean items) w)).
Proof.
  intros Htype Hslots Hlen.
  unfold post_event; cbv zeta.
  rewrite Htype, Hslots, Hlen, Nat.eqb_refl; cbn [negb].
  rewrite firstn_all2 by lia.
  unfold bind at 1; unfold read at 1 2; cbn [fst snd].
  unfold bind at 1; rewrite !for_each_diff_slot; cbn [fst snd].
  generalize (transitions_over (seq 0 SLOT_COUNT) (HP_PER_CRYSTAL cfg) now
                (slots (state w)) (map Js.Boolean items)).
  intros evs. unfold lighting.
  unfold updateWLEDFromSlots, initWLEDSegments, sendWLED.
  destruct w as [[hp mx cc tot sl log go en] rdy snt pnd bc].
  destruct (String.eqb (WLED_URL cfg) ""), en, rdy;
    cbn -[Z.max Z.mul Z.sub Z.add Z.leb push_all count_true insert_count];
    reflexivity.
Qed.

Lemma post_admin_reset_lighting now w :
  lighting (snd (post_admin_reset cfg now w)) =
  lighting (snd (updateWLEDFromSlots cfg (repeat false SLOT_COUNT) w)).
Proof.
  unfold post_admin_reset, lighting. run_handler w.
Qed.

Lemma step_effect a w : effect cfg a (state w) (state (step cfg js a w)).
Proof.
  destruct a as [now r | n]; cbn [step].
  - destruct r as [body | | body | | body | | body]; cbn [handle].
    + destruct (post_event_cases now body w) as [[e He] | [items [Ht [Hs Hlen]]]].
      * rewrite He. constructor.
      * destruct (post_event_accepts now body items w Ht Hs Hlen) as [_ ->].
        apply effect_report. rewrite length_map. exact Hlen.
    + constructor.
    + destruct (post_admin_hp_cases now body w)
        as [[_ He] | [(n & _ & _ & He) | (n & _ & _ & Hv & _ & -> & _)]].
      * rewrite He. constructor.
      * rewrite He. constructor.
      * apply effect_hp. destruct Hv as [Hv | ->]; [left; exact Hv | right; reflexivity].
    + destruct (post_admin_hp_reduce_run now w) as [_ [-> _]]. constructor.
    + destruct (post_admin_hp_damage_cases now body w) as [[_ He] | [enabled [_ [_ [-> _]]]]].
      * rewrite He. constructor.
      * constructor.
    + destruct (post_admin_reset_run now w) as [_ ->]. constructor.
    + rewrite post_admin_wled_state. constructor.
  - rewrite wled_completes_state. constructor.
Qed.

End Handlers.

(** ** Transitions between two slot vectors *)

Lemma transition_at_same damage ts reported i :
  transition_at damage ts reported reported i = [].
Proof. unfold transition_at. destruct (nth i reported false); reflexivity. Qed.

Lemma transitions_over_same idx damage ts reported :
  transitions_over idx damage ts reported reported = [].
Proof.
  induction idx as [| i idx IH]; [reflexivity |].
  unfold transitions_over in *. cbn [flat_map].
  rewrite transition_at_same, IH. reflexivity.
Qed.

Lemma transition_at_length damage ts prev reported i :
  (length (transition_at damage ts prev reported i) <= 1)%nat.
Proof.
  unfold transition_at.
  destruct (nth i prev false), (nth i reported false); cbn; lia.
Qed.

Lemma transitions_over_length idx damage ts prev reported :
  (length (transitions_over idx damage ts prev reported) <= length idx)%nat.
Proof.
  induction idx as [| i idx IH]; [cbn; lia |].
  unfold transitions_over in *. cbn [flat_map length].
  rewrite length_app.
  pose proof (transition_at_length damage ts prev reported i). lia.
Qed.

Lemma in_transition_at damage ts prev reported i ev :
  In ev (transition_at damage ts prev reported i) <->
  (ev = crystal_insert i damage ts /\ nth i prev false = false /\ nth i reported false = true) \/
  (ev = crystal_remove i ts /\ nth i prev false = true /\ nth i reported false = false).
Proof.
  unfold transition_at.
  destruct (nth i prev false), (nth i reported false); cbn; split;
    intuition (congruence || auto).
Qed.

Lemma in_transitions_over idx damage ts prev reported ev :
  In ev (transitions_over idx damage ts prev reported) <->
  exists i, In i idx /\
    ((ev = crystal_insert i damage ts /\ nth i prev false = false /\ nth i reported false = true) \/
     (ev = crystal_remove i ts /\ nth i prev false = true /\ nth i reported false = false)).
Proof.
  unfold transitions_over. rewrite in_flat_map.
  split; intros [i [Hi H]]; exists i; split; auto; apply in_transition_at; exact H.
Qed.

Lemma in_event_slots j evs :
  In j (event_slots evs) <-> exists ev, In ev evs /\ slot_of ev = Some j.
Proof.
  unfold event_slots. rewrite in_flat_map.
  split; intros [ev [Hev H]]; exists ev; split; auto.
  - destruct (slot_of ev); cbn in H; [| tauto]. destruct H; [congruence | tauto].
  - rewrite H. left. reflexivity.
Qed.

Lemma event_slots_app evs1 evs2 :
  event_slots (evs1 ++ evs2) = event_slots evs1 ++ event_slots evs2.
Proof. unfold event_slots. apply flat_map_app. Qed.

Lemma transitions_over_sorted idx damage ts prev reported :
  StronglySorted lt idx ->
  StronglySorted lt (event_slots (transitions_over idx damage ts prev reported)).
Proof.
  induction 1 as [| i idx Hsorted IH Hall]; [constructor |].
  unfold transitions_over. cbn [flat_map]. rewrite event_slots_app.
  fold (transitions_over idx damage ts prev reported).
  assert (Hrest : Forall (lt i) (event_slots (transitions_over idx damage ts prev reported))).
  { apply Forall_forall. intros j Hj.
    apply in_event_slots in Hj. destruct Hj as [ev [Hev Hslot]].
    apply in_transitions_over in Hev. destruct Hev as [k [Hk Hev]].
    rewrite Forall_forall in Hall.
    destruct Hev as [[-> _] | [-> _]]; cbn in Hslot; injection Hslot as <-; auto. }
  unfold transition_at.
  destruct (nth i prev false), (nth i reported false); cbn [event_slots flat_map slot_of app];
    try exact IH; constructor; assumption.
Qed.

Lemma seq_sorted n : forall a, StronglySorted lt (seq a n).
Proof.
  induction n as [| n IH]; intros a; cbn [seq]; constructor; [apply IH |].
  apply Forall_forall. intros j Hj. apply in_seq in Hj. lia.
Qed.

Lemma slot_report_type reported :
  Js.strict_eq_string (Js.prop (Js.or_empty (slot_report reported)) "type") "crystal" = true.
Proof. reflexivity. Qed.

Lemma slot_report_slots reported :
  Js.as_array (Js.prop (Js.or_empty (slot_report reported)) "slots") = Some (map Js.Bool reported).
Proof. reflexivity. Qed.

Lemma Boolean_Bool reported : map Js.Boolean (map Js.Bool reported) = reported.
Proof. rewrite map_map. apply map_id. Qed.

Lemma post_event_slot_report cfg now reported w :
  length reported = SLOT_COUNT ->
  let s' := reconciled cfg now reported (state w) in
  fst (post_event cfg now (slot_report reported) w) = EventOk (bossHp s') (gameOver s') (slots s') /\
  state (snd (post_event cfg now (slot_report reported) w)) = s'.
Proof.
  intros Hlen.
  pose proof (post_event_accepts cfg now (slot_report reported) (map Js.Bool reported) w
                (slot_report_type reported) (slot_report_slots reported)) as H.
  rewrite length_map, Boolean_Bool in H. exact (H Hlen).
Qed.


(** ** Invariants of the game state *)

Lemma count_true_nonneg sl : 0 <= count_true sl.
Proof. unfold count_true. lia. Qed.

Lemma insert_count_nonneg evs : 0 <= insert_count evs.
Proof. unfold insert_count. lia. Qed.

Lemma reduce_damage_div s : reduce_damage s = - ((- (maxHp s * 5)) / 100).
Proof.
  unfold reduce_damage, Qceiling, Qfloor.
  cbn [inject_Z Qmult Qopp Qnum Qden Pos.mul]. reflexivity.
Qed.

Lemma reduce_damage_nonneg s : 0 <= maxHp s -> 0 <= reduce_damage s.
Proof.
  intros H. rewrite reduce_damage_div. Z.div_mod_to_equations. lia.
Qed.

Lemma leb_eqb_nonneg z : 0 <= z -> (z <=? 0) = (z =? 0).
Proof.
  intros H. destruct (Z.leb_spec z 0), (Z.eqb_spec z 0); try reflexivity; lia.
Qed.

Lemma run_snoc cfg js actions a w :
  run cfg js (actions ++ [a]) w = step cfg js a (run cfg js actions w).
Proof. unfold run. rewrite fold_left_app. reflexivity. Qed.

Lemma reachable_run cfg js actions : reachable cfg js (run cfg js actions (initial cfg)).
Proof.
  induction actions as [| a actions IH] using rev_ind.
  - constructor.
  - rewrite run_snoc. constructor. exact IH.
Qed.

Lemma run_reachable cfg js w :
  reachable cfg js w -> exists actions, w = run cfg js actions (initial cfg).
Proof.
  induction 1 as [| a w Hreach [actions ->]].
  - exists []. reflexivity.
  - exists (actions ++ [a]). rewrite run_snoc. reflexivity.
Qed.

Section Invariants.
Variable cfg : Config.
Variable js : Js.Engine.

(** The log bound needs nothing from the configuration. *)
Lemma log_bounded_effect a s s' :
  effect cfg a s s' ->
  (length (recentEvents s) <= MAX_RECENT_EVENTS)%nat ->
  (length (recentEvents s') <= MAX_RECENT_EVENTS)%nat.
Proof.
  intros Heff Hlog.
  destruct Heff; cbn [reconciled after_hp after_hp_reduce after_hp_damage after_reset recentEvents];
    auto using unshift_pop_length, push_all_length.
  unfold MAX_RECENT_EVENTS. cbn [length]. lia.
Qed.

Lemma log_bounded_reachable w :
  reachable cfg js w -> (length (recentEvents (state w)) <= MAX_RECENT_EVENTS)%nat.
Proof.
  induction 1 as [| a w Hreach IH].
  - cbn. lia.
  - exact (log_bounded_effect a _ _ (step_effect cfg js a w) IH).
Qed.

Lemma total_effect a s s' :
  effect cfg a s s' ->
  is_reset a = false ->
  totalCrystalsReceived s <= totalCrystalsReceived s'.
Proof.
  intros Heff Ha.
  destruct Heff;
    cbn [reconciled after_hp after_hp_reduce after_hp_damage totalCrystalsReceived];
    try lia.
  - pose proof (insert_count_nonneg
                  (transition_events (HP_PER_CRYSTAL cfg) now (slots s) reported)). lia.
  - discriminate Ha.
Qed.

Hypothesis Hcfg : well_configured cfg.

Lemma consistent_initial : consistent cfg (state (initial cfg)).
Proof.
  destruct Hcfg as [Hmax Hhpc].
  constructor; cbn; try reflexivity; lia.
Qed.

Lemma consistent_effect a s s' :
  effect cfg a s s' -> consistent cfg s -> consistent cfg s'.
Proof.
  intros Heff Hs. pose proof Hs as [Hfix Hrange Hover Hlog Hslots Hcount].
  destruct Hcfg as [Hmax Hhpc].
  assert (Hlog' := log_bounded_effect a _ _ Heff Hlog).
  destruct Heff as [a s | now body reported s Hlen | now body v s Hv | now s
                   | now body enabled s | now s]; [exact Hs | | | | |];
    constructor; try exact Hlog';
    cbn [reconciled after_hp after_hp_reduce after_hp_damage after_reset
         bossHp maxHp gameOver slots crystalCount]; auto.
  - pose proof (count_true_nonneg reported).
    destruct (hpDamageEnabled s); [nia | exact Hrange].
  - pose proof (count_true_nonneg reported).
    destruct (hpDamageEnabled s); [apply leb_eqb_nonneg; lia | exact Hover].
  - lia.
  - apply leb_eqb_nonneg. lia.
  - pose proof (reduce_damage_nonneg s). lia.
  - apply leb_eqb_nonneg. lia.
  - pose proof (count_true_nonneg (slots s)).
    destruct enabled; [nia | exact Hrange].
  - destruct enabled; [apply leb_eqb_nonneg; lia | exact Hover].
  - lia.
  - symmetry. apply Z.eqb_neq. lia.
Qed.

Lemma consistent_reachable w : reachable cfg js w -> consistent cfg (state w).
Proof.
  induction 1 as [| a w Hreach IH].
  - apply consistent_initial.
  - exact (consistent_effect a _ _ (step_effect cfg js a w) IH).
Qed.

Lemma hp_derived_effect a s s' :
  effect cfg a s s' ->
  overrides_hp a = false ->
  0 <= maxHp s ->
  hp_derived cfg s -> hp_derived cfg s'.
Proof.
  intros Heff Ha Hmax Hs.
  destruct Heff as [a s | now body reported s Hlen | now body v s Hv | now s
                   | now body enabled s | now s];
    try discriminate Ha; try exact Hs; unfold hp_derived;
    cbn [reconciled after_hp_damage after_reset bossHp maxHp crystalCount hpDamageEnabled].
  - intros ->. reflexivity.
  - intros ->. reflexivity.
  - intros _. lia.
Qed.

End Invariants.

Lemma maxHp_effect cfg a s s' : effect cfg a s s' -> maxHp s' = maxHp s.
Proof. destruct 1; reflexivity. Qed.

Lemma maxHp_reachable cfg js w :
  reachable cfg js w -> maxHp (state w) = BOSS_MAX_HP cfg.
Proof.
  induction 1 as [| a w Hreach IH]; [reflexivity |].
  rewrite (maxHp_effect cfg a _ _ (step_effect cfg js a w)). exact IH.
Qed.

Lemma reachable_without_override_reachable cfg js w :
  reachable_without_override cfg js w -> reachable cfg js w.
Proof. induction 1; constructor; assumption. Qed.

Lemma strict_eq_string_true v lit :
  Js.strict_eq_string v lit = true <-> v = Some (Js.Str lit).
Proof.
  unfold Js.strict_eq_string.
  destruct v as [[| b | n | s | items | fields] |]; try (split; [discriminate | congruence]).
  rewrite String.eqb_eq. split; [intros ->; reflexivity | congruence].
Qed.

Lemma Number_throws js v :
  Js.Number js v = Js.Throws <-> exists v', v = Some v' /\ Js.throws v' = true.
Proof.
  destruct v as [[| [|] | n | s | items | fields] |]; cbn [Js.Number].
  1-5: split; [discriminate | intros (v' & Hv & Ht); injection Hv as <-; discriminate Ht].
  - split.
    + intros H. exists (Js.Arr items). split; [reflexivity |].
      cbn [Js.throws]. destruct (existsb Js.throws items); [reflexivity | discriminate H].
    + intros (v' & Hv & Ht). injection Hv as <-. cbn [Js.throws] in Ht.
      rewrite Ht. reflexivity.
  - split.
    + intros H. exists (Js.Obj fields). split; [reflexivity |].
      cbn [Js.throws]. destruct (Js.has_own "toString" fields); [reflexivity | discriminate H].
    + intros (v' & Hv & Ht). injection Hv as <-. cbn [Js.throws] in Ht.
      rewrite Ht. reflexivity.
  - split; [discriminate | intros (v' & Hv & _); discriminate Hv].
Qed.

Lemma as_array_some v items :
  Js.as_array v = Some items <-> v = Some (Js.Arr items).
Proof.
  unfold Js.as_array.
  destruct v as [[| b | n | s | items' | fields] |]; split; congruence.
Qed.

(** * The claims *)

(** C1. Reporting S1 and then S2 from the initial state leaves the slots at S2
    and [crystalCount] at the number of true entries of S2; the records
    appended by the second report are, by increasing index, one
    [crystal_insert] per index false in S1 and true in S2 and one
    [crystal_remove] per index true in S1 and false in S2, and nothing when
    S1 = S2. *)
Theorem slot_report_reconciliation (cfg : Config) (js : Js.Engine)
    (S1 S2 : list bool) (ts1 ts2 : Z) :
  length S1 = SLOT_COUNT ->
  length S2 = SLOT_COUNT ->
  let w1 := step cfg js (Handle ts1 (POST_event (slot_report S1))) (initial cfg) in
  let w2 := step cfg js (Handle ts2 (POST_event (slot_report S2))) w1 in
  let damage := HP_PER_CRYSTAL cfg in
  let appended := transition_events damage ts2 S1 S2 in
  slots (state w2) = S2 /\
  crystalCount (state w2) = count_true S2 /\
  recentEvents (state w2) = rev appended ++ recentEvents (state w1) /\
  (forall ev, In ev appended <->
     exists i, (i < SLOT_COUNT)%nat /\
       ((ev = crystal_insert i damage ts2 /\ nth i S1 false = false /\ nth i S2 false = true) \/
        (ev = crystal_remove i ts2 /\ nth i S1 false = true /\ nth i S2 false = false))) /\
  StronglySorted lt (event_slots appended) /\
  (S1 = S2 -> recentEvents (state w2) = recentEvents (state w1)).
Proof.
  intros H1 H2 w1 w2 damage appended.
  assert (Hw1 : state w1 = reconciled cfg ts1 S1 (state (initial cfg))).
  { apply post_event_slot_report. exact H1. }
  assert (Hw2 : state w2 = reconciled cfg ts2 S2 (state w1)).
  { apply post_event_slot_report. exact H2. }
  assert (Hlog1 : (length (recentEvents (state w1)) <= SLOT_COUNT)%nat).
  { rewrite Hw1. cbn [reconciled recentEvents initial state].
    rewrite push_all_firstn by (cbn; lia).
    rewrite length_firstn, app_nil_r, length_rev.
    pose proof (transitions_over_length (seq 0 SLOT_COUNT) (HP_PER_CRYSTAL cfg) ts1
                  (repeat false SLOT_COUNT) S1) as Hle.
    rewrite length_seq in Hle. unfold transition_events. cbn [slots]. lia. }
  assert (Hprev : slots (state w1) = S1) by (rewrite Hw1; reflexivity).
  assert (Hlog2 : recentEvents (state w2) = rev appended ++ recentEvents (state w1)).
  { rewrite Hw2. cbn [reconciled recentEvents]. rewrite Hprev.
    fold damage. fold appended.
    rewrite push_all_firstn by (unfold MAX_RECENT_EVENTS, SLOT_COUNT in *; lia).
    apply firstn_all2. rewrite length_app, length_rev.
    pose proof (transitions_over_length (seq 0 SLOT_COUNT) damage ts2 S1 S2) as Hle.
    rewrite length_seq in Hle.
    fold (transition_events damage ts2 S1 S2) in Hle. fold appended in Hle.
    unfold MAX_RECENT_EVENTS, SLOT_COUNT in *. lia. }
  repeat split.
  - rewrite Hw2. reflexivity.
  - rewrite Hw2. reflexivity.
  - exact Hlog2.
  - intros Hin. apply in_transitions_over in Hin. destruct Hin as [i [Hi Hev]].
    exists i. split; [apply in_seq in Hi; lia | exact Hev].
  - intros [i [Hi Hev]]. apply in_transitions_over. exists i.
    split; [apply in_seq; lia | exact Hev].
  - apply transitions_over_sorted, seq_sorted.
  - intros ->. rewrite Hlog2. unfold appended, transition_events.
    rewrite transitions_over_same. reflexivity.
Qed.

Lemma slot_report_reconciliation_witness :
  length [true; false; true; false; false; false; false] = SLOT_COUNT /\
  length [false; false; true; true; false; false; false] = SLOT_COUNT /\
  recentEvents (state (run default_config Js.digits_engine
     [Handle 5 (POST_event (slot_report [true; false; true; false; false; false; false]));
      Handle 6 (POST_event (slot_report [false; false; true; true; false; false; false]))]
     (initial default_config))) =
  rev [crystal_remove 0 6; crystal_insert 3 10 6] ++
  recentEvents (state (run default_config Js.digits_engine
     [Handle 5 (POST_event (slot_report [true; false; true; false; false; false; false]))]
     (initial default_config))).
Proof.
  split; [reflexivity |]. split; [reflexivity |].
  destruct (slot_report_reconciliation default_config Js.digits_engine
              [true; false; true; false; false; false; false]
              [false; false; true; true; false; false; false] 5 6 eq_refl eq_refl)
    as (_ & _ & Hlog & _).
  exact Hlog.
Defined.

(** C2. In every state reached from the initial one by any sequence of
    actions, [0 <= bossHp <= maxHp], and [gameOver] holds exactly when
    [bossHp] is 0. *)
Theorem hp_range_and_game_over (cfg : Config) (js : Js.Engine) (actions : list Action) :
  well_configured cfg ->
  let s := state (run cfg js actions (initial cfg)) in
  0 <= bossHp s <= maxHp s /\
  (gameOver s = true <-> bossHp s = 0).
Proof.
  intros Hcfg s.
  destruct (consistent_reachable cfg js Hcfg _ (reachable_run cfg js actions))
    as [_ Hrange Hover _ _ _].
  split; [exact Hrange |].
  fold s in Hover. rewrite Hover. apply Z.eqb_eq.
Qed.

Lemma hp_range_and_game_over_witness :
  well_configured default_config /\
  (0 <= bossHp (state (run default_config Js.digits_engine
          [Handle 1 (POST_event (slot_report (repeat true 7)));
           Handle 2 (POST_admin_hp (hp_body (Js.int 0)))] (initial default_config)))
     <= maxHp (state (run default_config Js.digits_engine
          [Handle 1 (POST_event (slot_report (repeat true 7)));
           Handle 2 (POST_admin_hp (hp_body (Js.int 0)))] (initial default_config)))) /\
  (gameOver (state (run default_config Js.digits_engine
          [Handle 1 (POST_event (slot_report (repeat true 7)));
           Handle 2 (POST_admin_hp (hp_body (Js.int 0)))] (initial default_config))) = true <->
   bossHp (state (run default_config Js.digits_engine
          [Handle 1 (POST_event (slot_report (repeat true 7)));
           Handle 2 (POST_admin_hp (hp_body (Js.int 0)))] (initial default_config))) = 0).
Proof.
  assert (Hcfg : well_configured default_config) by (split; reflexivity).
  split; [exact Hcfg |].
  exact (hp_range_and_game_over default_config Js.digits_engine
           [Handle 1 (POST_event (slot_report (repeat true 7)));
            Handle 2 (POST_admin_hp (hp_body (Js.int 0)))] Hcfg).
Defined.

(** C3, as the code has it.  While damage is enabled, [bossHp] is
    [max(0, maxHp - crystalCount * HP_PER_CRYSTAL)] in every state reached
    without a set-HP or reduce-HP request, and every other action preserves
    that equation from any reachable state.  Set-HP and reduce-HP write
    [bossHp] without looking at the slots and do not preserve it. *)
Theorem hp_derivation_unless_overridden (cfg : Config) (js : Js.Engine) :
  well_configured cfg ->
  (forall w, reachable_without_override cfg js w -> hp_derived cfg (state w)) /\
  (forall a w,
      reachable cfg js w ->
      overrides_hp a = false ->
      hp_derived cfg (state w) ->
      hp_derived cfg (state (step cfg js a w))).
Proof.
  intros Hcfg.
  assert (Hstep : forall a w, reachable cfg js w -> overrides_hp a = false ->
                    hp_derived cfg (state w) -> hp_derived cfg (state (step cfg js a w))).
  { intros a w Hreach Ha Hw.
    apply (hp_derived_effect cfg a (state w)); auto using step_effect.
    destruct (consistent_reachable cfg js Hcfg w Hreach) as [_ Hrange _ _ _ _]. lia. }
  split; [| exact Hstep].
  induction 1 as [| a w Hreach IH Ha].
  - unfold hp_derived. cbn. destruct Hcfg. lia.
  - apply Hstep; auto using reachable_without_override_reachable.
Qed.

Lemma hp_derivation_unless_overridden_witness :
  well_configured default_config /\
  hp_derived default_config
    (state (step default_config Js.digits_engine
              (Handle 1 (POST_event (slot_report [true; false; true; false; false; false; false])))
              (initial default_config))).
Proof.
  assert (Hcfg : well_configured default_config) by (split; reflexivity).
  split; [exact Hcfg |].
  apply (proj1 (hp_derivation_unless_overridden default_config Js.digits_engine Hcfg)).
  apply rwo_step; [apply rwo_initial | reflexivity].
Defined.

(** C3 as stated fails: after [POST /admin/hp] with [{ hp: 50 }] in the
    initial state, damage is enabled, no crystal is in, and [bossHp] is 50,
    not 100. *)
Lemma hp_derivation_counterexample :
  reachable default_config Js.digits_engine
    (step default_config Js.digits_engine
       (Handle 1 (POST_admin_hp (hp_body (Js.int 50)))) (initial default_config)) /\
  ~ hp_derived default_config
      (state (step default_config Js.digits_engine
                (Handle 1 (POST_admin_hp (hp_body (Js.int 50)))) (initial default_config))).
Proof.
  split; [apply reachable_step, reachable_initial |].
  intros H. specialize (H eq_refl). vm_compute in H. discriminate H.
Qed.

(** C4, as the code has it.  After a reset [bossHp] is [maxHp], the two
    crystal counters are 0, the seven slots are false, [gameOver] is false
    and the log holds exactly the [admin_reset] record of this reset;
    [maxHp] and [hpDamageEnabled] stay as they were.  From a reachable state
    with damage enabled the result is the process-start state but for that
    one record. *)
Theorem reset_postcondition (cfg : Config) (js : Js.Engine) (now : Z) (w : World) :
  let s := state w in
  let s' := state (step cfg js (Handle now POST_admin_reset) w) in
  bossHp s' = maxHp s' /\
  maxHp s' = maxHp s /\
  crystalCount s' = 0 /\
  totalCrystalsReceived s' = 0 /\
  slots s' = repeat false SLOT_COUNT /\
  gameOver s' = false /\
  recentEvents s' = [admin_reset now] /\
  hpDamageEnabled s' = hpDamageEnabled s /\
  (reachable cfg js w -> hpDamageEnabled s = true ->
   set_recentEvents [] s' = state (initial cfg)).
Proof.
  intros s s'. subst s'. cbn [step handle].
  destruct (post_admin_reset_run cfg now w) as [_ ->]. fold s.
  repeat split.
  intros Hreach Hen. unfold after_reset, set_recentEvents. cbn.
  rewrite Hen. unfold s. rewrite (maxHp_reachable cfg js w Hreach). reflexivity.
Qed.

(** C4 as stated fails: a reset after damage was switched off leaves
    [hpDamageEnabled] false, and the log is not empty. *)
Lemma reset_counterexample :
  reachable default_config Js.digits_engine
    (run default_config Js.digits_engine
       [Handle 1 (POST_admin_hp_damage (enabled_body false))] (initial default_config)) /\
  hpDamageEnabled (state (run default_config Js.digits_engine
       [Handle 1 (POST_admin_hp_damage (enabled_body false)); Handle 2 POST_admin_reset]
       (initial default_config))) = false /\
  recentEvents (state (run default_config Js.digits_engine
       [Handle 1 (POST_admin_hp_damage (enabled_body false)); Handle 2 POST_admin_reset]
       (initial default_config))) = [admin_reset 2].
Proof.
  split; [apply reachable_run |]. split; reflexivity.
Qed.

(** C5, as the code has it.  Every action other than a reset leaves
    [totalCrystalsReceived] at least as large as it was; a reset sets it
    to 0. *)
Theorem total_received_monotone_until_reset (cfg : Config) (js : Js.Engine)
    (a : Action) (w : World) :
  (is_reset a = false ->
   totalCrystalsReceived (state w) <= totalCrystalsReceived (state (step cfg js a w))) /\
  (is_reset a = true ->
   totalCrystalsReceived (state (step cfg js a w)) = 0).
Proof.
  split.
  - intros Ha. exact (total_effect cfg a _ _ (step_effect cfg js a w) Ha).
  - destruct a as [now [body | | body | | body | | body] | n]; try discriminate.
    intros _. cbn [step handle].
    destruct (post_admin_reset_run cfg now w) as [_ ->]. reflexivity.
Qed.

(** C5 as stated fails: after one crystal went in the counter is 1, and a
    reset takes it back to 0. *)
Lemma total_received_counterexample :
  reachable default_config Js.digits_engine
    (run default_config Js.digits_engine
       [Handle 1 (POST_event (slot_report [true; false; false; false; false; false; false]))]
       (initial default_config)) /\
  totalCrystalsReceived (state (step default_config Js.digits_engine (Handle 2 POST_admin_reset)
    (run default_config Js.digits_engine
       [Handle 1 (POST_event (slot_report [true; false; false; false; false; false; false]))]
       (initial default_config))))
  < totalCrystalsReceived (state
    (run default_config Js.digits_engine
       [Handle 1 (POST_event (slot_report [true; false; false; false; false; false; false]))]
       (initial default_config))).
Proof. split; [apply reachable_run | reflexivity]. Qed.

(** C6. A body whose [type] is not the string [crystal], or whose [slots] is
    not an array of exactly seven entries, gets a 400 answer with [ok: false]
    and an error message, and nothing in the process changes. *)
Theorem malformed_report_rejected (cfg : Config) (js : Js.Engine) (now : Z)
    (body : option Js.value) (w : World) :
  (Js.prop (Js.or_empty body) "type" <> Some (Js.Str "crystal") \/
   forall items, Js.prop (Js.or_empty body) "slots" = Some (Js.Arr items) ->
                 length items <> SLOT_COUNT) ->
  let resp := fst (handle cfg js now (POST_event body) w) in
  let w' := snd (handle cfg js now (POST_event body) w) in
  status resp = 400%nat /\
  ok resp = Some false /\
  (exists error, resp = BadRequest error) /\
  w' = w /\
  state w' = state w.
Proof.
  intros Hbad resp w'. subst resp w'. cbn [handle].
  destruct (post_event_cases cfg now body w) as [[e He] | [items [Ht [Hs Hlen]]]].
  - rewrite He. cbn. repeat split. exists e. reflexivity.
  - exfalso. destruct Hbad as [Hbad | Hbad].
    + apply Hbad. apply strict_eq_string_true. exact Ht.
    + apply (Hbad items); [apply as_array_some; exact Hs | exact Hlen].
Qed.

Lemma malformed_report_rejected_witness :
  (Js.prop (Js.or_empty (slot_report [true; false; true; false; false])) "type"
     <> Some (Js.Str "crystal") \/
   forall items,
     Js.prop (Js.or_empty (slot_report [true; false; true; false; false])) "slots"
       = Some (Js.Arr items) ->
     length items <> SLOT_COUNT) /\
  status (fst (handle default_config Js.digits_engine 1
                 (POST_event (slot_report [true; false; true; false; false]))
                 (initial default_config))) = 400%nat /\
  snd (handle default_config Js.digits_engine 1
         (POST_event (slot_report [true; false; true; false; false]))
         (initial default_config)) = initial default_config.
Proof.
  assert (Hbad : Js.prop (Js.or_empty (slot_report [true; false; true; false; false])) "type"
                   <> Some (Js.Str "crystal") \/
                 forall items,
                   Js.prop (Js.or_empty (slot_report [true; false; true; false; false])) "slots"
                     = Some (Js.Arr items) ->
                   length items <> SLOT_COUNT).
  { right. intros items Hitems. cbn in Hitems.
    injection Hitems as <-. cbn. discriminate. }
  split; [exact Hbad |].
  destruct (malformed_report_rejected default_config Js.digits_engine 1
              (slot_report [true; false; true; false; false])
              (initial default_config) Hbad) as (Hstatus & _ & _ & Hsame & _).
  split; [exact Hstatus | exact Hsame].
Defined.

(** C7, as the code has it.  [POST /admin/hp] answers 400 exactly when
    [Number(hp)] returns NaN (a missing [hp] among others) or a number below
    zero.  When [Number(hp)] throws, which it does exactly on an object with
    an own [toString] and on an array that holds a value of that kind, the
    handler throws with it and the answer is 500.  Either way nothing
    changes.  Any other value is accepted and sets [bossHp] to the floor of
    the number capped at [maxHp], which lies in [0, maxHp], and [gameOver]
    to [bossHp <= 0].  Values that [Number] coerces ([null], booleans,
    numeric strings) are accepted like numbers. *)
Theorem set_hp_validation (cfg : Config) (js : Js.Engine) (now : Z)
    (body : option Js.value) (w : World) :
  let hp := Js.opt_prop body "hp" in
  let resp := fst (handle cfg js now (POST_admin_hp body) w) in
  let w' := snd (handle cfg js now (POST_admin_hp body) w) in
  let s := state w in
  let s' := state w' in
  (status resp = 400%nat <->
   exists n, Js.Number js hp = Js.Returns n /\ (n = Js.NaN \/ below_zero n)) /\
  (status resp = 500%nat <-> Js.Number js hp = Js.Throws) /\
  (Js.Number js hp = Js.Throws <-> exists v, hp = Some v /\ Js.throws v = true) /\
  (hp = None -> status resp = 400%nat) /\
  (status resp <> 200%nat -> w' = w) /\
  (status resp = 200%nat <->
   exists n, Js.Number js hp = Js.Returns n /\ ~ (n = Js.NaN \/ below_zero n)) /\
  (forall n, Js.Number js hp = Js.Returns n -> status resp = 200%nat ->
   resp = HpOk (bossHp s') /\
   bossHp s' = Z.min (maxHp s) (floor_or (maxHp s) n) /\
   gameOver s' = (bossHp s' <=? 0) /\
   (0 <= maxHp s ->
    0 <= bossHp s' <= maxHp s /\
    bossHp s' = Z.max 0 (Z.min (maxHp s) (floor_or (maxHp s) n)))).
Proof.
  intros hp resp w' s s'. subst resp w' s'. cbn [handle].
  split; [| split; [| split; [apply Number_throws |]]].
  - destruct (post_admin_hp_cases cfg js now body w)
      as [[Hr He] | [(n & Hr & Hrej & He) | (n & Hr & Hacc & _ & Hresp & _)]];
      fold hp in Hr; rewrite Hr.
    + rewrite He. cbn [fst status].
      split; [discriminate | intros (m & Hm & _); discriminate Hm].
    + rewrite He. cbn [fst status]. split; [intros _; exists n; auto | reflexivity].
    + rewrite Hresp. cbn [status].
      split; [discriminate |].
      intros (m & Hm & Hbad). injection Hm as <-. contradiction.
  - destruct (post_admin_hp_cases cfg js now body w)
      as [[Hr He] | [(n & Hr & Hrej & He) | (n & Hr & Hacc & _ & Hresp & _)]];
      fold hp in Hr; rewrite Hr.
    + rewrite He. cbn [fst status]. split; reflexivity.
    + rewrite He. cbn [fst status]. split; discriminate.
    + rewrite Hresp. cbn [status]. split; discriminate.
  - destruct (post_admin_hp_cases cfg js now body w)
      as [[Hr He] | [(n & Hr & Hrej & He) | (n & Hr & Hacc & Hv & Hresp & Hstate & _)]];
      fold hp in Hr; fold s in Hv, Hresp, Hstate || fold s.
    + rewrite He, Hr. cbn [fst snd status].
      split; [intros Hnone; rewrite Hnone in Hr; discriminate Hr |].
      split; [reflexivity |].
      split; [split; [discriminate | intros (m & Hm & _); discriminate Hm] |].
      intros m Hm. discriminate Hm.
    + rewrite He, Hr. cbn [fst snd status].
      split; [reflexivity |]. split; [reflexivity |].
      split; [split; [discriminate |] |].
      * intros (m & Hm & Hok). injection Hm as <-. contradiction.
      * intros m _ Hm. discriminate Hm.
    + rewrite Hresp, Hstate, Hr. cbn [status after_hp bossHp gameOver].
      split.
      { intros Hnone. rewrite Hnone in Hr. injection Hr as <-.
        exfalso. apply Hacc. left. reflexivity. }
      split; [intros H; contradiction |].
      split; [split; [intros _; exists n; auto | reflexivity] |].
      intros m Hm _. injection Hm as <-.
      repeat (split; [reflexivity |]).
      intros Hmax.
      destruct Hv as [Hv | Hn]; [lia | rewrite Hn; cbn [floor_or]; lia].
Qed.

(** C7 as stated fails: [{ hp: null }] and [{ hp: true }] carry an [hp]
    that is present, not negative and not a number, and both are accepted
    with 200; the first leaves the boss dead, the second at 1 HP. *)
Lemma set_hp_null_counterexample :
  Js.opt_prop (hp_body Js.Null) "hp" = Some Js.Null /\
  status (fst (handle default_config Js.digits_engine 1
                 (POST_admin_hp (hp_body Js.Null)) (initial default_config))) = 200%nat /\
  bossHp (state (snd (handle default_config Js.digits_engine 1
                 (POST_admin_hp (hp_body Js.Null)) (initial default_config)))) = 0 /\
  gameOver (state (snd (handle default_config Js.digits_engine 1
                 (POST_admin_hp (hp_body Js.Null)) (initial default_config)))) = true /\
  status (fst (handle default_config Js.digits_engine 1
                 (POST_admin_hp (hp_body (Js.Bool true))) (initial default_config))) = 200%nat /\
  bossHp (state (snd (handle default_config Js.digits_engine 1
                 (POST_admin_hp (hp_body (Js.Bool true))) (initial default_config)))) = 1.
Proof. repeat split. Qed.

(** C8. The log never holds more than 20 records.  [addEvent] puts the new
    record at the front and keeps the older ones in their order; a log that
    already holds 20 loses exactly its last, oldest record. *)
Theorem event_log_bounded_most_recent_first (cfg : Config) (js : Js.Engine) :
  (forall actions,
      (length (recentEvents (state (run cfg js actions (initial cfg))))
       <= MAX_RECENT_EVENTS)%nat) /\
  (forall ev w,
      recentEvents (state (snd (addEvent ev w))) = unshift_pop ev (recentEvents (state w))) /\
  (forall ev log,
      (length log < MAX_RECENT_EVENTS)%nat -> unshift_pop ev log = ev :: log) /\
  (forall ev log,
      length log = MAX_RECENT_EVENTS ->
      unshift_pop ev log = ev :: removelast log /\
      log = removelast log ++ [last log ev]).
Proof.
  split; [| split; [| split]].
  - intros actions. apply (log_bounded_reachable cfg js). apply reachable_run.
  - intros ev w. reflexivity.
  - intros ev log Hlen. unfold unshift_pop. cbv zeta.
    destruct (Nat.ltb_spec MAX_RECENT_EVENTS (length (ev :: log))) as [Hfull | Hroom];
      [cbn [length] in Hfull; lia | reflexivity].
  - intros ev log Hlen.
    assert (Hne : log <> []) by (intros ->; discriminate Hlen).
    split; [| apply app_removelast_last; exact Hne].
    unfold unshift_pop. cbv zeta.
    destruct (Nat.ltb_spec MAX_RECENT_EVENTS (length (ev :: log))) as [Hfull | Hroom];
      [| cbn [length] in Hroom; lia].
    destruct log as [| ev' log']; [contradiction | reflexivity].
Qed.

(** C9. In a reachable state with [gameOver] true a valid slot report is
    answered 200 with [ok: true] and reconciled as in any other state: the
    slots are replaced, both counters follow, the transitions are logged, and
    [bossHp] is derived again (floored at 0) when damage is enabled. *)
Theorem game_over_not_frozen (cfg : Config) (js : Js.Engine) (now : Z)
    (reported : list bool) (w : World) :
  reachable cfg js w ->
  gameOver (state w) = true ->
  length reported = SLOT_COUNT ->
  let s := state w in
  let resp := fst (handle cfg js now (POST_event (slot_report reported)) w) in
  let s' := state (snd (handle cfg js now (POST_event (slot_report reported)) w)) in
  let evs := transition_events (HP_PER_CRYSTAL cfg) now (slots s) reported in
  status resp = 200%nat /\
  ok resp = Some true /\
  slots s' = reported /\
  crystalCount s' = count_true reported /\
  totalCrystalsReceived s' = totalCrystalsReceived s + insert_count evs /\
  recentEvents s' = firstn MAX_RECENT_EVENTS (rev evs ++ recentEvents s) /\
  (hpDamageEnabled s = true ->
   bossHp s' = Z.max 0 (maxHp s - count_true reported * HP_PER_CRYSTAL cfg) /\
   gameOver s' = (bossHp s' <=? 0)) /\
  (hpDamageEnabled s = false ->
   bossHp s' = bossHp s /\ gameOver s' = true).
Proof.
  intros Hreach Hover Hlen s resp s' evs. subst resp s'. cbn [handle].
  destruct (post_event_slot_report cfg now reported w Hlen) as [-> ->].
  fold s. cbn [status ok reconciled slots crystalCount totalCrystalsReceived
               recentEvents bossHp gameOver].
  fold evs.
  repeat (split; [reflexivity |]).
  split; [apply push_all_firstn; apply (log_bounded_reachable cfg js w Hreach) |].
  split; intros ->; split; auto.
Qed.

Lemma game_over_not_frozen_witness :
  reachable default_config Js.digits_engine
    (step default_config Js.digits_engine
       (Handle 1 (POST_admin_hp (hp_body (Js.int 0)))) (initial default_config)) /\
  gameOver (state (step default_config Js.digits_engine
       (Handle 1 (POST_admin_hp (hp_body (Js.int 0)))) (initial default_config))) = true /\
  length [true; false; false; false; false; false; false] = SLOT_COUNT /\
  status (fst (handle default_config Js.digits_engine 2
       (POST_event (slot_report [true; false; false; false; false; false; false]))
       (step default_config Js.digits_engine
          (Handle 1 (POST_admin_hp (hp_body (Js.int 0)))) (initial default_config))))
  = 200%nat.
Proof.
  assert (Hreach : reachable default_config Js.digits_engine
            (step default_config Js.digits_engine
               (Handle 1 (POST_admin_hp (hp_body (Js.int 0)))) (initial default_config)))
    by (apply reachable_step, reachable_initial).
  split; [exact Hreach |]. split; [reflexivity |]. split; [reflexivity |].
  exact (proj1 (game_over_not_frozen default_config Js.digits_engine 2
                  [true; false; false; false; false; false; false] _
                  Hreach eq_refl eq_refl)).
Defined.

(** C10. Handling [POST /admin/hp], [POST /admin/hp/reduce] or
    [POST /admin/hp-damage] sends nothing to the lighting device and leaves
    the ready latch and the requests in flight as they were.  A handler that
    touches the lighting side is the slot report or the reset, which go
    through [updateWLEDFromSlots], or [POST /admin/wled], the manual override
    that forwards its body as it is. *)
Theorem admin_hp_requests_send_no_lighting (cfg : Config) (js : Js.Engine)
    (now : Z) (w : World) :
  (forall body, lighting (snd (handle cfg js now (POST_admin_hp body) w)) = lighting w) /\
  lighting (snd (handle cfg js now POST_admin_hp_reduce w)) = lighting w /\
  (forall body, lighting (snd (handle cfg js now (POST_admin_hp_damage body) w)) = lighting w) /\
  (forall r, lighting (snd (handle cfg js now r w)) <> lighting w ->
     (exists body, r = POST_event body) \/ r = POST_admin_reset \/
     (exists body, r = POST_admin_wled body)) /\
  (forall body,
     lighting (snd (handle cfg js now (POST_admin_wled body) w)) =
     (wledSegsReady w,
      (if String.eqb (WLED_URL cfg) "" then wledSent w else Js.or_empty body :: wledSent w),
      wledPending w)) /\
  (forall reported, length reported = SLOT_COUNT ->
     lighting (snd (handle cfg js now (POST_event (slot_report reported)) w)) =
     lighting (snd (updateWLEDFromSlots cfg reported w))) /\
  lighting (snd (handle cfg js now POST_admin_reset w)) =
    lighting (snd (updateWLEDFromSlots cfg (repeat false SLOT_COUNT) w)) /\
  (forall reported, String.eqb (WLED_URL cfg) "" = false ->
     wledSent (snd (updateWLEDFromSlots cfg reported w)) =
     (if wledSegsReady w then slots_command reported else init_step1) :: wledSent w).
Proof.
  assert (Hhp : forall body,
             lighting (snd (handle cfg js now (POST_admin_hp body) w)) = lighting w).
  { intros body. cbn [handle].
    destruct (post_admin_hp_cases cfg js now body w)
      as [[_ ->] | [(n & _ & _ & ->) | (n & _ & _ & _ & _ & _ & H)]];
      [reflexivity | reflexivity | exact H]. }
  assert (Hreduce : lighting (snd (handle cfg js now POST_admin_hp_reduce w)) = lighting w).
  { cbn [handle]. apply (post_admin_hp_reduce_run cfg now w). }
  assert (Hdamage : forall body,
             lighting (snd (handle cfg js now (POST_admin_hp_damage body) w)) = lighting w).
  { intros body. cbn [handle].
    destruct (post_admin_hp_damage_cases cfg now body w)
      as [[_ ->] | [enabled [_ [_ [_ H]]]]]; [reflexivity | exact H]. }
  split; [exact Hhp |]. split; [exact Hreduce |]. split; [exact Hdamage |].
  split.
  { intros r Hr. destruct r as [body | | body | | body | | body].
    - left. exists body. reflexivity.
    - exfalso. apply Hr. reflexivity.
    - exfalso. apply Hr, Hhp.
    - exfalso. apply Hr, Hreduce.
    - exfalso. apply Hr, Hdamage.
    - right. left. reflexivity.
    - right. right. exists body. reflexivity. }
  split; [intros body; apply post_admin_wled_lighting |].
  split.
  { intros reported Hlen. cbn [handle].
    rewrite (post_event_lighting cfg now (slot_report reported) (map Js.Bool reported) w
               (slot_report_type reported) (slot_report_slots reported))
      by (rewrite length_map; exact Hlen).
    rewrite Boolean_Bool. reflexivity. }
  split; [apply post_admin_reset_lighting |].
  intros reported Hurl.
  pose proof (updateWLEDFromSlots_lighting cfg reported w) as H.
  rewrite Hurl in H. unfold lighting in H.
  destruct (wledSegsReady w); injection H as _ H _; exact H.
Qed.

(** * Further properties of the server *)

Section Broadcasts.
Variable cfg : Config.
Variable js : Js.Engine.

Ltac compute_handler w :=
  unfold updateWLEDFromSlots, initWLEDSegments, sendWLED;
  destruct (String.eqb (WLED_URL cfg) "");
  destruct w as [[hp mx cc tot sl log go en] rdy snt pnd bc];
  destruct rdy;
  cbn -[Z.max Z.min Z.mul Z.sub Z.add Z.leb unshift_pop push_all count_true
        insert_count reduce_damage repeat SLOT_COUNT];
  try reflexivity.

Lemma post_event_broadcasts now body items w :
  Js.strict_eq_string (Js.prop (Js.or_empty body) "type") "crystal" = true ->
  Js.as_array (Js.prop (Js.or_empty body) "slots") = Some items ->
  length items = SLOT_COUNT ->
  broadcasts (snd (post_event cfg now body w)) =
  state (snd (post_event cfg now body w)) :: broadcasts w.
Proof.
  intros Htype Hslots Hlen.
  destruct (post_event_accepts cfg now body items w Htype Hslots Hlen) as [_ ->].
  unfold reconciled, post_event; cbv zeta.
  rewrite Htype, Hslots, Hlen, Nat.eqb_refl; cbn [negb].
  rewrite firstn_all2 by lia.
  unfold bind at 1. change (read w) with (state w, w). cbn [fst snd].
  unfold bind at 1.
  rewrite (for_each_diff_slot cfg now (map Js.Boolean items) (slots (state w))
             (seq 0 SLOT_COUNT) 0 w).
  cbn [fst snd].
  fold (transition_events (HP_PER_CRYSTAL cfg) now (slots (state w)) (map Js.Boolean items)).
  generalize (transition_events (HP_PER_CRYSTAL cfg) now (slots (state w)) (map Js.Boolean items)).
  intros evs.
  unfold updateWLEDFromSlots, initWLEDSegments, sendWLED.
  destruct w as [[hp mx cc tot sl log go en] rdy snt pnd bc].
  destruct (String.eqb (WLED_URL cfg) ""), en, rdy;
    cbn -[Z.max Z.mul Z.sub Z.add Z.leb push_all count_true insert_count];
    rewrite ?Z.add_0_l; reflexivity.
Qed.

Lemma commit_hp_broadcasts now floored w :
  broadcasts (snd (commit_hp now floored w)) =
  state (snd (commit_hp now floored w)) :: broadcasts w.
Proof. unfold commit_hp. compute_handler w. Qed.

Lemma post_admin_hp_reduce_broadcasts now w :
  broadcasts (snd (post_admin_hp_reduce now w)) =
  state (snd (post_admin_hp_reduce now w)) :: broadcasts w.
Proof. unfold post_admin_hp_reduce. compute_handler w. Qed.

Lemma post_admin_hp_damage_broadcasts now body enabled w :
  Js.as_boolean (Js.opt_prop body "enabled") = Some enabled ->
  broadcasts (snd (post_admin_hp_damage cfg now body w)) =
  state (snd (post_admin_hp_damage cfg now body w)) :: broadcasts w.
Proof.
  intros Hen. unfold post_admin_hp_damage. rewrite Hen.
  destruct enabled; compute_handler w.
Qed.

Lemma post_admin_reset_broadcasts now w :
  broadcasts (snd (post_admin_reset cfg now w)) =
  state (snd (post_admin_reset cfg now w)) :: broadcasts w.
Proof. unfold post_admin_reset. compute_handler w. Qed.

Lemma post_admin_wled_broadcasts body w :
  broadcasts (snd (post_admin_wled cfg body w)) = broadcasts w.
Proof.
  unfold post_admin_wled. generalize (Js.or_empty body). intros v. compute_handler w.
Qed.

Lemma run_callback_broadcasts k w :
  broadcasts (snd (run_callback cfg k w)) = broadcasts w.
Proof. destruct k; unfold run_callback; compute_handler w. Qed.

Lemma wled_completes_broadcasts n w :
  broadcasts (snd (wled_completes cfg n w)) = broadcasts w.
Proof.
  unfold wled_completes. destruct (nth_error (wledPending w) n); [| reflexivity].
  rewrite run_callback_broadcasts. reflexivity.
Qed.

(** Every action either leaves state and broadcasts alone, or ends by
    broadcasting the state it leaves. *)
Lemma step_broadcasts a w :
  (state (step cfg js a w) = state w /\ broadcasts (step cfg js a w) = broadcasts w) \/
  broadcasts (step cfg js a w) = state (step cfg js a w) :: broadcasts w.
Proof.
  destruct a as [now r | n]; cbn [step].
  - destruct r as [body | | body | | body | | body]; cbn [handle].
    + destruct (post_event_cases cfg now body w) as [[e He] | [items [Ht [Hs Hlen]]]].
      * left. rewrite He. auto.
      * right. apply (post_event_broadcasts now body items); assumption.
    + left. auto.
    + unfold post_admin_hp.
      destruct (Js.Number js (Js.opt_prop body "hp")) as [[| q | |] |];
        try (left; auto; fail).
      * destruct (negb (Qle_bool 0 q)); [left; auto | right; apply commit_hp_broadcasts].
      * right. apply commit_hp_broadcasts.
    + right. apply post_admin_hp_reduce_broadcasts.
    + destruct (Js.as_boolean (Js.opt_prop body "enabled")) as [enabled |] eqn:Hen.
      * right. apply (post_admin_hp_damage_broadcasts now body enabled). exact Hen.
      * left. unfold post_admin_hp_damage. rewrite Hen. auto.
    + right. apply post_admin_reset_broadcasts.
    + left. split; [apply post_admin_wled_state | apply post_admin_wled_broadcasts].
  - left. split; [apply wled_completes_state | apply wled_completes_broadcasts].
Qed.

Lemma post_admin_hp_broadcasts now body w :
  status (fst (post_admin_hp js now body w)) = 200%nat ->
  broadcasts (snd (post_admin_hp js now body w))
  = state (snd (post_admin_hp js now body w)) :: broadcasts w.
Proof.
  unfold post_admin_hp.
  destruct (Js.Number js (Js.opt_prop body "hp")) as [[| q | |] |];
    try (intros H; discriminate H).
  - destruct (negb (Qle_bool 0 q)); [intros H; discriminate H |].
    intros _. apply commit_hp_broadcasts.
  - intros _. apply commit_hp_broadcasts.
Qed.

(** X1.  A request that is answered 200 by one of the five mutating
    endpoints appends exactly one snapshot to what the observers received,
    the game state it leaves, and answers with fields read from that state;
    it does so whether or not anything changed.  [POST /admin/hp/reduce]
    and [POST /admin/reset] are always answered so.  A request that is not
    answered 200 leaves the whole process as it was.  [GET /state] returns
    the current state and changes nothing; [POST /admin/wled] touches
    neither the game state nor the observers. *)
Theorem accepted_request_broadcasts_once now r w :
  let resp := fst (handle cfg js now r w) in
  let w' := snd (handle cfg js now r w) in
  (status resp <> 200%nat -> w' = w) /\
  match r with
  | POST_event _ =>
      status resp = 200%nat ->
      resp = EventOk (bossHp (state w')) (gameOver (state w')) (slots (state w')) /\
      broadcasts w' = state w' :: broadcasts w
  | GET_state => resp = StateJson (state w) /\ w' = w
  | POST_admin_hp _ =>
      status resp = 200%nat ->
      resp = HpOk (bossHp (state w')) /\
      broadcasts w' = state w' :: broadcasts w
  | POST_admin_hp_reduce =>
      resp = HpReduceOk (bossHp (state w')) (reduce_damage (state w)) /\
      broadcasts w' = state w' :: broadcasts w
  | POST_admin_hp_damage _ =>
      status resp = 200%nat ->
      resp = HpDamageOk (hpDamageEnabled (state w')) /\
      broadcasts w' = state w' :: broadcasts w
  | POST_admin_reset =>
      resp = ResetOk (state w') /\
      broadcasts w' = state w' :: broadcasts w
  | POST_admin_wled _ =>
      resp = WledOk /\ state w' = state w /\ broadcasts w' = broadcasts w
  end.
Proof.
  intros resp w'. subst resp w'.
  destruct r as [body | | body | | body | | body]; cbn [handle].
  - destruct (post_event_cases cfg now body w) as [[e He] | [items [Ht [Hs Hlen]]]].
    + rewrite He. cbn [fst snd status]. split; [reflexivity | discriminate].
    + pose proof (post_event_broadcasts now body items w Ht Hs Hlen) as Hb.
      destruct (post_event_accepts cfg now body items w Ht Hs Hlen) as [Hresp Hstate].
      rewrite Hresp. cbn [status].
      split; [intros H; contradiction |].
      intros _. split; [rewrite Hstate; reflexivity | exact Hb].
  - cbn. split; [intros H; contradiction | split; reflexivity].
  - split.
    + destruct (post_admin_hp_cases cfg js now body w)
        as [[_ He] | [(n & _ & _ & He) | (n & _ & _ & _ & Hresp & _)]].
      * rewrite He. reflexivity.
      * rewrite He. reflexivity.
      * rewrite Hresp. intros H. contradiction.
    + intros Hok. split; [| apply post_admin_hp_broadcasts; exact Hok].
      destruct (post_admin_hp_cases cfg js now body w)
        as [[_ He] | [(n & _ & _ & He) | (n & _ & _ & _ & Hresp & Hstate & _)]].
      * rewrite He in Hok. discriminate Hok.
      * rewrite He in Hok. discriminate Hok.
      * rewrite Hresp, Hstate. reflexivity.
  - destruct (post_admin_hp_reduce_run cfg now w) as [Hresp [Hstate _]].
    rewrite Hresp. cbn [status].
    split; [intros H; contradiction |].
    split; [rewrite Hstate; reflexivity | apply post_admin_hp_reduce_broadcasts].
  - destruct (post_admin_hp_damage_cases cfg now body w)
      as [[_ He] | [enabled [Hen [Hresp [Hstate _]]]]].
    + rewrite He. cbn [fst snd status]. split; [reflexivity | discriminate].
    + rewrite Hresp. cbn [status].
      split; [intros H; contradiction |].
      intros _. split; [rewrite Hstate; reflexivity |].
      apply (post_admin_hp_damage_broadcasts now body enabled w Hen).
  - destruct (post_admin_reset_run cfg now w) as [Hresp Hstate].
    rewrite Hresp. cbn [status].
    split; [intros H; contradiction |].
    split; [rewrite Hstate; reflexivity | apply post_admin_reset_broadcasts].
  - cbn [post_admin_wled fst status].
    split; [intros H; contradiction |].
    split; [reflexivity |].
    split; [apply post_admin_wled_state | apply post_admin_wled_broadcasts].
Qed.

(** X2.  The observers are never stale: in every reachable state the newest
    broadcast snapshot is the current game state, and as long as nothing was
    broadcast the game state is the initial one. *)
Theorem observers_never_stale w :
  reachable cfg js w ->
  match broadcasts w with
  | [] => state w = state (initial cfg)
  | snap :: _ => snap = state w
  end.
Proof.
  induction 1 as [| a w Hreach IH]; [reflexivity |].
  destruct (step_broadcasts a w) as [[Hs Hb] | Hb]; rewrite Hb; [| reflexivity].
  rewrite Hs. exact IH.
Qed.

End Broadcasts.

Section GameProperties.
Variable cfg : Config.
Variable js : Js.Engine.

(** X8.  [POST /admin/hp-damage] answers 400, changing nothing, exactly when
    [enabled] is not a boolean.  Otherwise it stores the flag and logs one
    [admin_hp_damage] record; turning damage on recomputes [bossHp] as
    [max(0, maxHp - crystalCount * HP_PER_CRYSTAL)] and [gameOver] from it,
    turning it off leaves both as they are. *)
Theorem damage_toggle_validation_and_effect now body w :
  let v := Js.opt_prop body "enabled" in
  let resp := fst (handle cfg js now (POST_admin_hp_damage body) w) in
  let w' := snd (handle cfg js now (POST_admin_hp_damage body) w) in
  let s := state w in
  let s' := state w' in
  (status resp = 400%nat <-> forall b, v <> Some (Js.Bool b)) /\
  (status resp = 400%nat -> w' = w) /\
  (forall b, v = Some (Js.Bool b) ->
     resp = HpDamageOk b /\
     hpDamageEnabled s' = b /\
     recentEvents s' = unshift_pop (admin_hp_damage b now) (recentEvents s) /\
     slots s' = slots s /\ crystalCount s' = crystalCount s /\
     totalCrystalsReceived s' = totalCrystalsReceived s /\ maxHp s' = maxHp s /\
     (b = true ->
      bossHp s' = Z.max 0 (maxHp s - crystalCount s * HP_PER_CRYSTAL cfg) /\
      gameOver s' = (bossHp s' <=? 0)) /\
     (b = false -> bossHp s' = bossHp s /\ gameOver s' = gameOver s)).
Proof.
  intros v resp w' s s'. subst resp w' s'. cbn [handle].
  destruct (post_admin_hp_damage_cases cfg now body w)
    as [[Hnone He] | [enabled [Hen [Hresp [Hstate _]]]]]; fold v in Hnone || fold v in Hen.
  - rewrite He. cbn [fst snd status].
    assert (Hnot : forall b, v <> Some (Js.Bool b)).
    { intros b Hb. rewrite Hb in Hnone. discriminate Hnone. }
    split; [split; auto |]. split; [auto |].
    intros b Hb. exfalso. exact (Hnot b Hb).
  - assert (Hv : v = Some (Js.Bool enabled)).
    { destruct v as [[| b | n | str | items | fields] |]; try discriminate Hen.
      cbn in Hen. congruence. }
    rewrite Hresp, Hstate. cbn [status]. fold s.
    split; [split; [discriminate | intros Hnot; exfalso; exact (Hnot enabled Hv)] |].
    split; [discriminate |].
    intros b Hb. rewrite Hv in Hb. injection Hb as <-.
    cbn [after_hp_damage hpDamageEnabled recentEvents slots crystalCount
         totalCrystalsReceived maxHp bossHp gameOver].
    repeat (split; [reflexivity |]).
    split; intros ->; split; reflexivity.
Qed.

Lemma frozen_effect a s s' :
  effect cfg a s s' ->
  slot_traffic a = true ->
  hpDamageEnabled s = false ->
  bossHp s' = bossHp s /\ gameOver s' = gameOver s /\ hpDamageEnabled s' = false.
Proof.
  intros Heff Ha Hen.
  destruct Heff; try discriminate Ha; auto.
  cbn [reconciled bossHp gameOver hpDamageEnabled]. rewrite Hen. auto.
Qed.

(** X9.  While damage is disabled, slot reports, [GET /state],
    [POST /admin/wled] and completions of the lighting device leave [bossHp]
    and [gameOver] as they were, and the flag stays off. *)
Theorem disabled_damage_freezes_hp actions : forall w,
  hpDamageEnabled (state w) = false ->
  forallb slot_traffic actions = true ->
  let w' := run cfg js actions w in
  bossHp (state w') = bossHp (state w) /\
  gameOver (state w') = gameOver (state w) /\
  hpDamageEnabled (state w') = false.
Proof.
  induction actions as [| a actions IH]; intros w Hen Hall; [cbn; auto |].
  cbn [forallb] in Hall. apply andb_true_iff in Hall. destruct Hall as [Ha Hall].
  destruct (frozen_effect a _ _ (step_effect cfg js a w) Ha Hen) as [Hhp [Hover Hen']].
  cbn [run fold_left]. fold (run cfg js actions (step cfg js a w)).
  destruct (IH (step cfg js a w) Hen' Hall) as [IHhp [IHover IHen]].
  cbv zeta. rewrite IHhp, IHover, IHen, Hhp, Hover. auto.
Qed.

Lemma transition_events_same damage ts reported :
  transition_events damage ts reported reported = [].
Proof. apply transitions_over_same. Qed.

Lemma reconciled_twice now1 now2 reported s :
  reconciled cfg now2 reported (reconciled cfg now1 reported s) =
  reconciled cfg now1 reported s.
Proof.
  unfold reconciled at 1. cbv zeta.
  cbn [reconciled slots hpDamageEnabled maxHp bossHp gameOver totalCrystalsReceived
       recentEvents].
  rewrite transition_events_same.
  cbn [insert_count filter length push_all fold_left Z.of_nat]. rewrite Z.add_0_r.
  unfold reconciled. cbv zeta.
  destruct (hpDamageEnabled s); reflexivity.
Qed.

(** X4.  A slot report that is sent again, whatever it holds, finds nothing
    left to reconcile: the second handling leaves the game state, log
    included, as the first one left it. *)
Theorem repeated_report_leaves_state now1 now2 body w :
  let w1 := step cfg js (Handle now1 (POST_event body)) w in
  let w2 := step cfg js (Handle now2 (POST_event body)) w1 in
  state w2 = state w1.
Proof.
  intros w1 w2. subst w2. cbn [step handle].
  destruct (post_event_cases cfg now2 body w1) as [[e He] | [items [Ht [Hs Hlen]]]].
  - rewrite He. reflexivity.
  - destruct (post_event_accepts cfg now2 body items w1 Ht Hs Hlen) as [_ ->].
    subst w1. cbn [step handle].
    destruct (post_event_accepts cfg now1 body items w Ht Hs Hlen) as [_ ->].
    apply reconciled_twice.
Qed.

(** X3.  [POST /event] answers 200 exactly when [type] is the string
    [crystal] and [slots] is an array of length 7; it then stores
    [Boolean(x)] of each element, counts the true ones, and answers with the
    HP, the game-over flag and the stored slots. *)
Theorem slot_report_accepted_iff now body w :
  let resp := fst (handle cfg js now (POST_event body) w) in
  let s' := state (snd (handle cfg js now (POST_event body) w)) in
  (status resp = 200%nat <->
   Js.prop (Js.or_empty body) "type" = Some (Js.Str "crystal") /\
   exists items, Js.prop (Js.or_empty body) "slots" = Some (Js.Arr items) /\
                 length items = SLOT_COUNT) /\
  (forall items,
     Js.prop (Js.or_empty body) "type" = Some (Js.Str "crystal") ->
     Js.prop (Js.or_empty body) "slots" = Some (Js.Arr items) ->
     length items = SLOT_COUNT ->
     slots s' = map Js.Boolean items /\
     crystalCount s' = count_true (map Js.Boolean items) /\
     resp = EventOk (bossHp s') (gameOver s') (map Js.Boolean items)).
Proof.
  intros resp s'. subst resp s'. cbn [handle]. split.
  - split.
    + intros Hstatus.
      destruct (post_event_cases cfg now body w) as [[e He] | [items [Ht [Hs Hlen]]]].
      * rewrite He in Hstatus. discriminate Hstatus.
      * split; [apply strict_eq_string_true; exact Ht |].
        exists items. split; [apply as_array_some; exact Hs | exact Hlen].
    + intros [Ht [items [Hs Hlen]]].
      apply strict_eq_string_true in Ht. apply as_array_some in Hs.
      destruct (post_event_accepts cfg now body items w Ht Hs Hlen) as [-> _]. reflexivity.
  - intros items Ht Hs Hlen.
    apply strict_eq_string_true in Ht. apply as_array_some in Hs.
    destruct (post_event_accepts cfg now body items w Ht Hs Hlen) as [-> ->].
    repeat split.
Qed.

End GameProperties.

Lemma reduce_damage_closed s : reduce_damage s = (maxHp s + 19) / 20.
Proof. rewrite reduce_damage_div. Z.div_mod_to_equations. lia. Qed.

Lemma count_true_le_length sl : count_true sl <= Z.of_nat (length sl).
Proof.
  unfold count_true. pose proof (filter_length_le (fun b : bool => b) sl). lia.
Qed.

Lemma Forall_removelast {A : Type} (P : A -> Prop) (l : list A) :
  Forall P l -> Forall P (removelast l).
Proof.
  induction 1 as [| x l Hx Hl IH]; [constructor |].
  cbn [removelast]. destruct l; [constructor | constructor; assumption].
Qed.

Lemma Forall_unshift_pop (P : EventRecord -> Prop) ev log :
  P ev -> Forall P log -> Forall P (unshift_pop ev log).
Proof.
  intros Hev Hlog. unfold unshift_pop. cbv zeta.
  destruct (MAX_RECENT_EVENTS <? length (ev :: log))%nat;
    [apply Forall_removelast |]; constructor; assumption.
Qed.

Lemma Forall_push_all (P : EventRecord -> Prop) evs : forall log,
  Forall P evs -> Forall P log -> Forall P (push_all evs log).
Proof.
  induction evs as [| ev evs IH]; intros log Hevs Hlog; [exact Hlog |].
  inversion Hevs as [| ? ? Hev Hrest]; subst.
  change (push_all (ev :: evs) log) with (push_all evs (unshift_pop ev log)).
  apply IH; [exact Hrest | apply Forall_unshift_pop; assumption].
Qed.

Lemma transition_at_shift damage ts x y prev reported i :
  transition_at damage ts (x :: prev) (y :: reported) (S i) =
  map shift_slot (transition_at damage ts prev reported i).
Proof.
  unfold transition_at. cbn [nth].
  destruct (nth i prev false), (nth i reported false); reflexivity.
Qed.

Lemma transitions_over_shift damage ts x y prev reported n : forall a,
  transitions_over (seq (S a) n) damage ts (x :: prev) (y :: reported) =
  map shift_slot (transitions_over (seq a n) damage ts prev reported).
Proof.
  induction n as [| n IH]; intros a; [reflexivity |].
  unfold transitions_over in *. cbn [seq flat_map].
  rewrite map_app, IH, transition_at_shift. reflexivity.
Qed.

Lemma insert_count_shift evs : insert_count (map shift_slot evs) = insert_count evs.
Proof.
  unfold insert_count. f_equal. induction evs as [| ev evs IH]; [reflexivity |].
  cbn [map filter]. destruct ev; cbn [shift_slot is_insert length]; auto.
Qed.

Lemma remove_count_shift evs : remove_count (map shift_slot evs) = remove_count evs.
Proof.
  unfold remove_count. f_equal. induction evs as [| ev evs IH]; [reflexivity |].
  cbn [map filter]. destruct ev; cbn [shift_slot is_remove length]; auto.
Qed.

Lemma remove_count_app evs1 evs2 :
  remove_count (evs1 ++ evs2) = remove_count evs1 + remove_count evs2.
Proof. unfold remove_count. rewrite filter_app, length_app. lia. Qed.

Lemma count_true_cons b sl : count_true (b :: sl) = (if b then 1 else 0) + count_true sl.
Proof. unfold count_true. cbn [filter]. destruct b; cbn [length]; lia. Qed.

(** Inserts minus removes is the change of the number of filled slots; there
    are no more inserts than empty slots and no more removes than filled ones. *)
Lemma transitions_balance damage ts prev : forall reported,
  length prev = length reported ->
  let evs := transitions_over (seq 0 (length prev)) damage ts prev reported in
  count_true reported - count_true prev = insert_count evs - remove_count evs /\
  0 <= insert_count evs <= Z.of_nat (length prev) - count_true prev /\
  0 <= remove_count evs <= count_true prev.
Proof.
  induction prev as [| x prev IH]; intros reported Hlen.
  - destruct reported; [| discriminate Hlen]. cbn. lia.
  - destruct reported as [| y reported]; [discriminate Hlen |].
    injection Hlen as Hlen. specialize (IH reported Hlen). cbv zeta in IH.
    cbn [length seq]. unfold transitions_over in *. cbn [flat_map].
    fold (transitions_over (seq 1 (length prev)) damage ts (x :: prev) (y :: reported)).
    rewrite transitions_over_shift.
    fold (transitions_over (seq 0 (length prev)) damage ts prev reported) in IH.
    rewrite insert_count_app, remove_count_app, insert_count_shift, remove_count_shift.
    rewrite !count_true_cons.
    pose proof (count_true_le_length prev).
    unfold transition_at. cbn [nth].
    destruct x, y; cbn [insert_count remove_count filter is_insert is_remove length Z.of_nat];
      lia.
Qed.

Section MoreGameProperties.
Variable cfg : Config.
Variable js : Js.Engine.

Lemma shape_effect a s s' :
  effect cfg a s s' ->
  length (slots s) = SLOT_COUNT /\ crystalCount s = count_true (slots s) /\
  0 <= totalCrystalsReceived s ->
  length (slots s') = SLOT_COUNT /\ crystalCount s' = count_true (slots s') /\
  0 <= totalCrystalsReceived s'.
Proof.
  intros Heff [Hlen [Hcount Htotal]].
  destruct Heff; cbn [reconciled after_hp after_hp_reduce after_hp_damage after_reset
                       slots crystalCount totalCrystalsReceived]; auto.
  - pose proof (insert_count_nonneg
                  (transition_events (HP_PER_CRYSTAL cfg) now (slots s) reported)).
    repeat split; auto; lia.
  - repeat split; lia.
Qed.

Lemma shape_reachable w :
  reachable cfg js w ->
  length (slots (state w)) = SLOT_COUNT /\
  crystalCount (state w) = count_true (slots (state w)) /\
  0 <= totalCrystalsReceived (state w).
Proof.
  induction 1 as [| a w Hreach IH].
  - cbn. repeat split; lia.
  - exact (shape_effect a _ _ (step_effect cfg js a w) IH).
Qed.

(** X6.  In every reachable state there are 7 slots, [crystalCount] is the
    number of occupied ones (so between 0 and 7), [totalCrystalsReceived] is
    not negative and [maxHp] is the configured maximum. *)
Theorem slots_and_counters_invariant w :
  reachable cfg js w ->
  let s := state w in
  length (slots s) = SLOT_COUNT /\
  crystalCount s = count_true (slots s) /\
  0 <= crystalCount s <= Z.of_nat SLOT_COUNT /\
  0 <= totalCrystalsReceived s /\
  maxHp s = BOSS_MAX_HP cfg.
Proof.
  intros Hreach s. destruct (shape_reachable w Hreach) as [Hlen [Hcount Htotal]].
  fold s in Hlen, Hcount, Htotal.
  pose proof (count_true_nonneg (slots s)). pose proof (count_true_le_length (slots s)).
  repeat split; auto; try lia.
  apply (maxHp_reachable cfg js w Hreach).
Qed.

Lemma transition_events_ok ts prev reported :
  Forall (record_ok cfg) (transition_events (HP_PER_CRYSTAL cfg) ts prev reported).
Proof.
  apply Forall_forall. intros ev Hev.
  apply in_transitions_over in Hev. destruct Hev as [i [Hi Hev]].
  apply in_seq in Hi.
  destruct Hev as [[-> _] | [-> _]]; cbn [record_ok]; [split; [lia | reflexivity] | lia].
Qed.

Lemma records_ok_effect a s s' :
  effect cfg a s s' ->
  maxHp s = BOSS_MAX_HP cfg ->
  Forall (record_ok cfg) (recentEvents s) ->
  Forall (record_ok cfg) (recentEvents s').
Proof.
  intros Heff Hmax Hlog.
  destruct Heff; cbn [reconciled after_hp after_hp_reduce after_hp_damage after_reset
                       recentEvents]; auto.
  - apply Forall_push_all; [apply transition_events_ok | exact Hlog].
  - apply Forall_unshift_pop; [| exact Hlog]. cbn [record_ok]. lia.
  - apply Forall_unshift_pop; [| exact Hlog]. cbn [record_ok].
    rewrite reduce_damage_closed, Hmax. split; [reflexivity | lia].
  - apply Forall_unshift_pop; [exact I | exact Hlog].
  - constructor; [exact I | constructor].
Qed.

(** X7.  Every record of the log of a reachable state is well formed: a
    slot index below 7, the configured damage on an insert, an [admin_hp]
    value of at most the maximum, and on an [admin_hp_reduce] the damage
    [ceil(maxHp * 0.05)] with a resulting HP that is not negative. *)
Theorem logged_records_well_formed w :
  reachable cfg js w -> Forall (record_ok cfg) (recentEvents (state w)).
Proof.
  induction 1 as [| a w Hreach IH]; [constructor |].
  exact (records_ok_effect a _ _ (step_effect cfg js a w) (maxHp_reachable cfg js w Hreach) IH).
Qed.

(** X5.  A slot report moves [crystalCount] by the inserts minus the
    removes it logs and [totalCrystalsReceived] by the inserts; there are at
    most as many inserts as free slots and as many removes as occupied
    ones. *)
Theorem crystal_count_follows_events now reported w :
  reachable cfg js w ->
  length reported = SLOT_COUNT ->
  let s := state w in
  let s' := state (step cfg js (Handle now (POST_event (slot_report reported))) w) in
  let evs := transition_events (HP_PER_CRYSTAL cfg) now (slots s) reported in
  crystalCount s' - crystalCount s = insert_count evs - remove_count evs /\
  totalCrystalsReceived s' - totalCrystalsReceived s = insert_count evs /\
  0 <= insert_count evs <= Z.of_nat SLOT_COUNT - crystalCount s /\
  0 <= remove_count evs <= crystalCount s.
Proof.
  intros Hreach Hlen s s' evs. subst s'. cbn [step handle].
  destruct (post_event_slot_report cfg now reported w Hlen) as [_ ->]. fold s.
  destruct (shape_reachable w Hreach) as [Hslots [Hcount _]]. fold s in Hslots, Hcount.
  cbn [reconciled crystalCount totalCrystalsReceived]. fold evs.
  pose proof (transitions_balance (HP_PER_CRYSTAL cfg) now (slots s) reported) as Hbal.
  rewrite Hslots in Hbal. specialize (Hbal (eq_sym Hlen)). cbv zeta in Hbal.
  fold (transition_events (HP_PER_CRYSTAL cfg) now (slots s) reported) in Hbal.
  fold evs in Hbal. rewrite Hcount. lia.
Qed.

Lemma run_reduce nows : forall w,
  0 <= bossHp (state w) ->
  0 <= maxHp (state w) ->
  let w' := run cfg js (map (fun now => Handle now POST_admin_hp_reduce) nows) w in
  bossHp (state w') =
    Z.max 0 (bossHp (state w) - Z.of_nat (length nows) * ((maxHp (state w) + 19) / 20)) /\
  maxHp (state w') = maxHp (state w) /\
  (nows <> [] -> gameOver (state w') = (bossHp (state w') <=? 0)).
Proof.
  induction nows as [| now nows IH]; intros w Hhp Hmax.
  - cbn. repeat split; [lia | congruence].
  - cbn [map run fold_left].
    fold (run cfg js (map (fun now => Handle now POST_admin_hp_reduce) nows)
            (step cfg js (Handle now POST_admin_hp_reduce) w)).
    assert (Hstep : state (step cfg js (Handle now POST_admin_hp_reduce) w)
                    = after_hp_reduce now (state w)).
    { cbn [step handle]. apply (post_admin_hp_reduce_run cfg now w). }
    assert (Hd : 0 <= (maxHp (state w) + 19) / 20) by (Z.div_mod_to_equations; lia).
    specialize (IH (step cfg js (Handle now POST_admin_hp_reduce) w)).
    rewrite Hstep in IH.
    cbn [after_hp_reduce bossHp maxHp] in IH.
    rewrite reduce_damage_closed in IH.
    destruct IH as [IHhp [IHmax IHover]]; [lia | exact Hmax |].
    cbv zeta.
    split; [rewrite IHhp; cbn [length]; nia |]. split; [exact IHmax |].
    intros _. destruct nows as [| now' nows'].
    + cbn [map run fold_left]. rewrite Hstep. reflexivity.
    + apply IHover. discriminate.
Qed.

(** X11.  [n] requests to [POST /admin/hp/reduce] in a row take
    [n * ceil(maxHp * 0.05)] off the HP, stopping at 0, and leave [maxHp]
    alone. *)
Theorem repeated_reduce_formula nows w :
  0 <= bossHp (state w) ->
  0 <= maxHp (state w) ->
  let w' := run cfg js (map (fun now => Handle now POST_admin_hp_reduce) nows) w in
  bossHp (state w') =
    Z.max 0 (bossHp (state w) - Z.of_nat (length nows) * ((maxHp (state w) + 19) / 20)) /\
  maxHp (state w') = maxHp (state w).
Proof.
  intros Hhp Hmax. destruct (run_reduce nows w Hhp Hmax) as [H1 [H2 _]]. auto.
Qed.

(** X12.  From any reachable state twenty reductions in a row end the
    game. *)
Theorem twenty_reductions_end_the_game nows w :
  well_configured cfg ->
  reachable cfg js w ->
  length nows = 20%nat ->
  let w' := run cfg js (map (fun now => Handle now POST_admin_hp_reduce) nows) w in
  bossHp (state w') = 0 /\ gameOver (state w') = true.
Proof.
  intros Hcfg Hreach Hlen.
  destruct (consistent_reachable cfg js Hcfg w Hreach) as [_ Hrange _ _ _ _].
  destruct (run_reduce nows w) as [Hhp [_ Hover]]; [lia | lia |].
  cbv zeta.
  assert (Hzero : bossHp (state (run cfg js
             (map (fun now => Handle now POST_admin_hp_reduce) nows) w)) = 0).
  { rewrite Hhp, Hlen. Z.div_mod_to_equations. lia. }
  split; [exact Hzero |].
  rewrite Hover by (intros ->; discriminate Hlen). rewrite Hzero. reflexivity.
Qed.

(** X10.  With damage enabled, a slot report ends the game exactly when the
    reported crystals are worth the whole [BOSS_MAX_HP]; if all 7 slots
    together are worth less, no slot report ever does. *)
Theorem crystals_end_the_game_iff now reported w :
  reachable cfg js w ->
  hpDamageEnabled (state w) = true ->
  length reported = SLOT_COUNT ->
  let s' := state (step cfg js (Handle now (POST_event (slot_report reported))) w) in
  (gameOver s' = true <-> BOSS_MAX_HP cfg <= count_true reported * HP_PER_CRYSTAL cfg) /\
  (0 <= HP_PER_CRYSTAL cfg ->
   Z.of_nat SLOT_COUNT * HP_PER_CRYSTAL cfg < BOSS_MAX_HP cfg ->
   gameOver s' = false /\
   BOSS_MAX_HP cfg - Z.of_nat SLOT_COUNT * HP_PER_CRYSTAL cfg <= bossHp s').
Proof.
  intros Hreach Hen Hlen s'. subst s'. cbn [step handle].
  destruct (post_event_slot_report cfg now reported w Hlen) as [_ ->].
  cbn [reconciled gameOver bossHp]. rewrite Hen, (maxHp_reachable cfg js w Hreach).
  pose proof (count_true_nonneg reported).
  pose proof (count_true_le_length reported) as Hle. rewrite Hlen in Hle.
  split.
  - rewrite Z.leb_le. lia.
  - intros Hhpc Hbig. split; [apply Z.leb_gt |]; nia.
Qed.
End MoreGameProperties.

Section Lighting.
Variable cfg : Config.
Variable js : Js.Engine.

Ltac compute_lighting w :=
  unfold updateWLEDFromSlots, initWLEDSegments, sendWLED;
  destruct (String.eqb (WLED_URL cfg) "");
  destruct w as [[hp mx cc tot sl log go en] rdy snt pnd bc];
  destruct rdy;
  cbn -[Z.max Z.min Z.mul Z.sub Z.add Z.leb unshift_pop push_all count_true
        insert_count reduce_damage repeat SLOT_COUNT init_step1 init_step2 slots_command];
  try reflexivity.

(** What a request can do to the lighting side. *)
Lemma handle_lighting_cases now r w :
  lighting (snd (handle cfg js now r w)) = lighting w \/
  (exists reported,
     lighting (snd (handle cfg js now r w)) =
     lighting (snd (updateWLEDFromSlots cfg reported w))) \/
  (exists body,
     String.eqb (WLED_URL cfg) "" = false /\
     lighting (snd (handle cfg js now r w)) =
     (wledSegsReady w, body :: wledSent w, wledPending w)).
Proof.
  destruct r as [body | | body | | body | | body]; cbn [handle].
  - destruct (post_event_cases cfg now body w) as [[e He] | [items [Ht [Hs Hlen]]]].
    + left. rewrite He. reflexivity.
    + right. left. exists (map Js.Boolean items).
      apply post_event_lighting; assumption.
  - left. reflexivity.
  - left. destruct (post_admin_hp_cases cfg js now body w)
      as [[_ ->] | [(n & _ & _ & ->) | (n & _ & _ & _ & _ & _ & H)]];
      [reflexivity | reflexivity | exact H].
  - left. apply (post_admin_hp_reduce_run cfg now w).
  - left. destruct (post_admin_hp_damage_cases cfg now body w)
      as [[_ ->] | [enabled [_ [_ [_ H]]]]]; [reflexivity | exact H].
  - right. left. exists (repeat false SLOT_COUNT). apply post_admin_reset_lighting.
  - rewrite post_admin_wled_lighting.
    destruct (String.eqb (WLED_URL cfg) "") eqn:Hurl; [left; reflexivity |].
    right. right. exists (Js.or_empty body). auto.
Qed.

Lemma run_callback_lighting k w :
  lighting (snd (run_callback cfg k w)) =
  match k with
  | after_step1 reported =>
      if String.eqb (WLED_URL cfg) "" then lighting w
      else (wledSegsReady w, init_step2 :: wledSent w,
            wledPending w ++ [after_step2 reported])
  | after_step2 reported =>
      if String.eqb (WLED_URL cfg) "" then (true, wledSent w, wledPending w)
      else (true, slots_command reported :: wledSent w, wledPending w)
  end.
Proof.
  unfold lighting. destruct k; unfold run_callback; compute_lighting w.
Qed.

Lemma in_remove_nth {A : Type} (x : A) (l : list A) : forall n,
  In x (remove_nth n l) -> In x l.
Proof.
  induction l as [| y l IH]; intros n Hin; [destruct n; exact Hin |].
  destruct n as [| n]; cbn [remove_nth] in Hin; [right; exact Hin |].
  destruct Hin as [-> | Hin]; [left; reflexivity | right; exact (IH n Hin)].
Qed.

Lemma remove_nth_length {A : Type} (l : list A) : forall n,
  (length (remove_nth n l) <= length l)%nat.
Proof.
  induction l as [| y l IH]; intros n; [destruct n; cbn; lia |].
  destruct n as [| n]; cbn [remove_nth length]; [lia |]. specialize (IH n). lia.
Qed.

Lemma remove_nth_length_some {A : Type} (l : list A) : forall n k,
  nth_error l n = Some k -> S (length (remove_nth n l)) = length l.
Proof.
  induction l as [| y l IH]; intros n k Hn; [destruct n; discriminate Hn |].
  destruct n as [| n]; cbn [remove_nth length]; [reflexivity |].
  cbn [nth_error] in Hn. rewrite (IH n k Hn). reflexivity.
Qed.

Lemma updateWLEDFromSlots_ready reported w :
  wledSegsReady (snd (updateWLEDFromSlots cfg reported w)) = wledSegsReady w.
Proof.
  pose proof (updateWLEDFromSlots_lighting cfg reported w) as H. unfold lighting in H.
  destruct (String.eqb (WLED_URL cfg) ""), (wledSegsReady w); congruence.
Qed.

Lemma lighting_ready w1 w2 : lighting w1 = lighting w2 -> wledSegsReady w1 = wledSegsReady w2.
Proof. unfold lighting. congruence. Qed.

(** X13.  Without [WLED_URL] the lighting adapter is inert: in every
    reachable state nothing was sent, no request is in flight and the ready
    latch is open. *)
Theorem unconfigured_lighting_is_inert w :
  WLED_URL cfg = ""%string ->
  reachable cfg js w ->
  lighting w = (false, [], []).
Proof.
  intros Hurl. assert (Heqb : String.eqb (WLED_URL cfg) "" = true) by (rewrite Hurl; reflexivity).
  induction 1 as [| a w Hreach IH]; [reflexivity |].
  destruct a as [now r | n]; cbn [step].
  - destruct (handle_lighting_cases now r w) as [H | [[reported H] | [body [Hne _]]]].
    + rewrite H. exact IH.
    + rewrite H, updateWLEDFromSlots_lighting, Heqb. exact IH.
    + congruence.
  - unfold wled_completes.
    assert (Hpending : wledPending w = []) by (unfold lighting in IH; congruence).
    rewrite Hpending. destruct n; cbn [nth_error snd]; exact IH.
Qed.

(** X14.  [wledSegsReady] is a latch: once set, no request and no
    completion of the device resets it. *)
Theorem ready_latch_is_never_reset a w :
  wledSegsReady w = true -> wledSegsReady (step cfg js a w) = true.
Proof.
  intros Hready. destruct a as [now r | n]; cbn [step].
  - destruct (handle_lighting_cases now r w) as [H | [[reported H] | [body [_ H]]]].
    + apply lighting_ready in H. rewrite H. exact Hready.
    + apply lighting_ready in H. rewrite H, updateWLEDFromSlots_ready. exact Hready.
    + unfold lighting in H. congruence.
  - unfold wled_completes.
    destruct (nth_error (wledPending w) n) as [k |]; [| exact Hready].
    match goal with |- wledSegsReady (snd (run_callback cfg k ?w0)) = true =>
      pose proof (run_callback_lighting k w0) as H end.
    unfold lighting in H. cbn [wledSegsReady wledSent wledPending] in H.
    destruct k, (String.eqb (WLED_URL cfg) ""); congruence.
Qed.
End Lighting.

Section Setup.
Variable cfg : Config.
Variable js : Js.Engine.

Lemma setup_sent_in_order_cons x sent :
  setup_sent_in_order sent -> setup_sent_in_order (x :: sent).
Proof.
  intros [newer [between [older ->]]]. exists (x :: newer), between, older. reflexivity.
Qed.

Lemma setup_consistent_by_lighting w w' :
  lighting w' = lighting w -> setup_consistent w -> setup_consistent w'.
Proof.
  unfold lighting, setup_consistent. intros H. injection H as -> -> ->. auto.
Qed.

Lemma setup_consistent_sent x w w' :
  lighting w' = (wledSegsReady w, x :: wledSent w, wledPending w) ->
  setup_consistent w -> setup_consistent w'.
Proof.
  unfold lighting, setup_consistent. intros H [H1 [H2 H3]]. injection H as -> -> ->.
  repeat split; intros; try right; try apply setup_sent_in_order_cons; eauto.
Qed.

Lemma setup_consistent_update reported w w' :
  lighting w' = lighting (snd (updateWLEDFromSlots cfg reported w)) ->
  setup_consistent w -> setup_consistent w'.
Proof.
  rewrite updateWLEDFromSlots_lighting.
  destruct (String.eqb (WLED_URL cfg) ""); [apply setup_consistent_by_lighting |].
  destruct (wledSegsReady w) eqn:Hready.
  - rewrite <- Hready. apply setup_consistent_sent.
  - unfold lighting, setup_consistent. intros H [H1 [H2 H3]]. injection H as -> -> ->.
    split; [intros; left; reflexivity |].
    split; [| discriminate].
    intros r Hin. apply in_app_or in Hin.
    destruct Hin as [Hin | [Hin | []]]; [| discriminate Hin].
    apply setup_sent_in_order_cons. eauto.
Qed.

Lemma setup_consistent_step a w :
  setup_consistent w -> setup_consistent (step cfg js a w).
Proof.
  intros Hw. destruct a as [now r | n]; cbn [step].
  - destruct (handle_lighting_cases cfg js now r w) as [H | [[reported H] | [body [_ H]]]].
    + exact (setup_consistent_by_lighting _ _ H Hw).
    + exact (setup_consistent_update _ _ _ H Hw).
    + exact (setup_consistent_sent _ _ _ H Hw).
  - unfold wled_completes.
    destruct (nth_error (wledPending w) n) as [k |] eqn:Hk; [| exact Hw].
    apply nth_error_In in Hk.
    match goal with |- setup_consistent (snd (run_callback cfg k ?w0)) =>
      pose proof (run_callback_lighting cfg k w0) as H;
      remember (snd (run_callback cfg k w0)) as w' eqn:Hw' end.
    clear Hw'. destruct Hw as [H1 [H2 H3]].
    unfold lighting in H. cbn [wledSegsReady wledSent wledPending] in H.
    unfold setup_consistent.
    destruct k as [reported | reported], (String.eqb (WLED_URL cfg) "");
      injection H as -> -> ->.
    + repeat split; intros; eauto using in_remove_nth.
    + assert (Hin1 : In init_step1 (wledSent w)) by eauto.
      apply in_split in Hin1. destruct Hin1 as [between [older Hsent]].
      assert (Hnow : setup_sent_in_order (init_step2 :: wledSent w)).
      { exists [], between, older. rewrite Hsent. reflexivity. }
      repeat split; intros; auto.
      right. apply in_app_or in H. destruct H as [H | [H | []]]; [| discriminate H].
      eauto using in_remove_nth.
    + repeat split; intros; eauto using in_remove_nth.
    + repeat split; intros; try right; try apply setup_sent_in_order_cons;
        eauto using in_remove_nth.
Qed.

Lemma setup_consistent_reachable w : reachable cfg js w -> setup_consistent w.
Proof.
  induction 1 as [| a w Hreach IH].
  - repeat split; cbn; try contradiction; discriminate.
  - apply setup_consistent_step. exact IH.
Qed.

(** X15.  The latch closes only after the set-up was sent: in every
    reachable state with [wledSegsReady], both set-up commands are among the
    commands sent, step 1 before step 2. *)
Theorem ready_only_after_both_setup_steps w :
  reachable cfg js w ->
  wledSegsReady w = true ->
  setup_sent_in_order (wledSent w).
Proof.
  intros Hreach Hready. apply (setup_consistent_reachable w Hreach). exact Hready.
Qed.

(** X16.  The completion of a request to the lighting device never touches
    the game: state and broadcasts stay, at most one further command is sent,
    no request in flight is added, and the latch is never reopened. *)
Theorem device_completion_frame n w :
  let w' := step cfg js (WledCompletes n) w in
  state w' = state w /\
  broadcasts w' = broadcasts w /\
  (wledSent w' = wledSent w \/ exists command, wledSent w' = command :: wledSent w) /\
  (length (wledPending w') <= length (wledPending w))%nat /\
  (wledSegsReady w' = false -> wledSegsReady w = false).
Proof.
  cbv zeta. cbn [step].
  split; [apply wled_completes_state |].
  split; [apply wled_completes_broadcasts |].
  unfold wled_completes.
  destruct (nth_error (wledPending w) n) as [k |] eqn:Hk; [| cbn [snd]; auto].
  pose proof (remove_nth_length_some _ _ _ Hk) as Hlen.
  match goal with |- context [run_callback cfg k ?w0] =>
    pose proof (run_callback_lighting cfg k w0) as H;
    remember (snd (run_callback cfg k w0)) as w' eqn:Hw' end.
  clear Hw'. unfold lighting in H. cbn [wledSegsReady wledSent wledPending] in H.
  destruct k as [reported | reported], (String.eqb (WLED_URL cfg) "");
    injection H as -> -> ->; repeat split; eauto; try discriminate;
    rewrite ?length_app; cbn [length]; lia.
Qed.
End Setup.

(** ** The further properties at concrete runs *)

Lemma observers_never_stale_witness :
  reachable default_config Js.digits_engine
    (step default_config Js.digits_engine
       (Handle 1 (POST_event (slot_report [true; false; false; false; false; false; false])))
       (initial default_config)) /\
  match broadcasts (step default_config Js.digits_engine
       (Handle 1 (POST_event (slot_report [true; false; false; false; false; false; false])))
       (initial default_config)) with
  | [] => False
  | snap :: _ => bossHp snap = 90
  end.
Proof.
  assert (Hreach : reachable default_config Js.digits_engine
            (step default_config Js.digits_engine
               (Handle 1 (POST_event
                  (slot_report [true; false; false; false; false; false; false])))
               (initial default_config)))
    by (apply reachable_step, reachable_initial).
  split; [exact Hreach |].
  pose proof (observers_never_stale default_config Js.digits_engine _ Hreach) as H.
  destruct (broadcasts _) as [| snap older]; [discriminate H |].
  rewrite H. reflexivity.
Defined.

Lemma disabled_damage_freezes_hp_witness :
  hpDamageEnabled (state (step default_config Js.digits_engine
     (Handle 1 (POST_admin_hp_damage (enabled_body false))) (initial default_config)))
  = false /\
  forallb slot_traffic [Handle 2 (POST_event (slot_report (repeat true 7)))] = true /\
  bossHp (state (run default_config Js.digits_engine
     [Handle 2 (POST_event (slot_report (repeat true 7)))]
     (step default_config Js.digits_engine
        (Handle 1 (POST_admin_hp_damage (enabled_body false))) (initial default_config))))
  = bossHp (state (step default_config Js.digits_engine
     (Handle 1 (POST_admin_hp_damage (enabled_body false))) (initial default_config))).
Proof.
  split; [reflexivity |]. split; [reflexivity |].
  exact (proj1 (disabled_damage_freezes_hp default_config Js.digits_engine
     [Handle 2 (POST_event (slot_report (repeat true 7)))]
     (step default_config Js.digits_engine
        (Handle 1 (POST_admin_hp_damage (enabled_body false))) (initial default_config))
     eq_refl eq_refl)).
Defined.

Lemma slots_and_counters_invariant_witness :
  reachable default_config Js.digits_engine
    (step default_config Js.digits_engine
       (Handle 1 (POST_event (slot_report [true; false; true; false; false; false; false])))
       (initial default_config)) /\
  crystalCount (state (step default_config Js.digits_engine
       (Handle 1 (POST_event (slot_report [true; false; true; false; false; false; false])))
       (initial default_config)))
  = count_true (slots (state (step default_config Js.digits_engine
       (Handle 1 (POST_event (slot_report [true; false; true; false; false; false; false])))
       (initial default_config)))).
Proof.
  assert (Hreach : reachable default_config Js.digits_engine
            (step default_config Js.digits_engine
               (Handle 1 (POST_event
                  (slot_report [true; false; true; false; false; false; false])))
               (initial default_config)))
    by (apply reachable_step, reachable_initial).
  split; [exact Hreach |].
  exact (proj1 (proj2 (slots_and_counters_invariant default_config Js.digits_engine _ Hreach))).
Defined.

Lemma logged_records_well_formed_witness :
  reachable default_config Js.digits_engine
    (step default_config Js.digits_engine (Handle 2 POST_admin_hp_reduce)
       (step default_config Js.digits_engine
          (Handle 1 (POST_event (slot_report [true; false; true; false; false; false; false])))
          (initial default_config))) /\
  Forall (record_ok default_config)
    (recentEvents (state
       (step default_config Js.digits_engine (Handle 2 POST_admin_hp_reduce)
          (step default_config Js.digits_engine
             (Handle 1 (POST_event
                (slot_report [true; false; true; false; false; false; false])))
             (initial default_config))))).
Proof.
  assert (Hreach : reachable default_config Js.digits_engine
    (step default_config Js.digits_engine (Handle 2 POST_admin_hp_reduce)
       (step default_config Js.digits_engine
          (Handle 1 (POST_event (slot_report [true; false; true; false; false; false; false])))
          (initial default_config))))
    by (do 2 apply reachable_step; apply reachable_initial).
  split; [exact Hreach |].
  exact (logged_records_well_formed default_config Js.digits_engine _ Hreach).
Defined.

Lemma crystal_count_follows_events_witness :
  reachable default_config Js.digits_engine
    (step default_config Js.digits_engine
       (Handle 1 (POST_event (slot_report [true; false; true; false; false; false; false])))
       (initial default_config)) /\
  length [false; true; true; true; false; false; false] = SLOT_COUNT /\
  totalCrystalsReceived (state (step default_config Js.digits_engine
     (Handle 2 (POST_event (slot_report [false; true; true; true; false; false; false])))
     (step default_config Js.digits_engine
       (Handle 1 (POST_event (slot_report [true; false; true; false; false; false; false])))
       (initial default_config))))
  - totalCrystalsReceived (state (step default_config Js.digits_engine
       (Handle 1 (POST_event (slot_report [true; false; true; false; false; false; false])))
       (initial default_config)))
  = insert_count (transition_events (HP_PER_CRYSTAL default_config) 2
      (slots (state (step default_config Js.digits_engine
       (Handle 1 (POST_event (slot_report [true; false; true; false; false; false; false])))
       (initial default_config))))
      [false; true; true; true; false; false; false]).
Proof.
  assert (Hreach : reachable default_config Js.digits_engine
            (step default_config Js.digits_engine
               (Handle 1 (POST_event
                  (slot_report [true; false; true; false; false; false; false])))
               (initial default_config)))
    by (apply reachable_step, reachable_initial).
  split; [exact Hreach |]. split; [reflexivity |].
  exact (proj1 (proj2 (crystal_count_follows_events default_config Js.digits_engine 2
     [false; true; true; true; false; false; false] _ Hreach eq_refl))).
Defined.

Lemma repeated_reduce_formula_witness :
  0 <= bossHp (state (initial default_config)) /\
  0 <= maxHp (state (initial default_config)) /\
  bossHp (state (run default_config Js.digits_engine
     (map (fun now => Handle now POST_admin_hp_reduce) [1; 2; 3]) (initial default_config)))
  = Z.max 0 (bossHp (state (initial default_config))
             - Z.of_nat (length [1; 2; 3])
               * ((maxHp (state (initial default_config)) + 19) / 20)).
Proof.
  assert (Hhp : 0 <= bossHp (state (initial default_config))) by (cbn; lia).
  assert (Hmax : 0 <= maxHp (state (initial default_config))) by (cbn; lia).
  split; [exact Hhp |]. split; [exact Hmax |].
  exact (proj1 (repeated_reduce_formula default_config Js.digits_engine [1; 2; 3]
                  (initial default_config) Hhp Hmax)).
Defined.

Lemma twenty_reductions_end_the_game_witness :
  well_configured default_config /\
  reachable default_config Js.digits_engine (initial default_config) /\
  length (repeat 5 20) = 20%nat /\
  gameOver (state (run default_config Js.digits_engine
     (map (fun now => Handle now POST_admin_hp_reduce) (repeat 5 20))
     (initial default_config))) = true.
Proof.
  assert (Hcfg : well_configured default_config) by (split; reflexivity).
  split; [exact Hcfg |]. split; [apply reachable_initial |]. split; [reflexivity |].
  exact (proj2 (twenty_reductions_end_the_game default_config Js.digits_engine (repeat 5 20)
                  (initial default_config) Hcfg (reachable_initial _ _) eq_refl)).
Defined.

Lemma crystals_end_the_game_iff_witness :
  reachable default_config Js.digits_engine (initial default_config) /\
  hpDamageEnabled (state (initial default_config)) = true /\
  length (repeat true 7) = SLOT_COUNT /\
  (gameOver (state (step default_config Js.digits_engine
      (Handle 1 (POST_event (slot_report (repeat true 7)))) (initial default_config))) = true
   <-> BOSS_MAX_HP default_config <= count_true (repeat true 7) * HP_PER_CRYSTAL default_config).
Proof.
  split; [apply reachable_initial |]. split; [reflexivity |]. split; [reflexivity |].
  exact (proj1 (crystals_end_the_game_iff default_config Js.digits_engine 1 (repeat true 7)
                  (initial default_config) (reachable_initial _ _) eq_refl eq_refl)).
Defined.

Lemma unconfigured_lighting_is_inert_witness :
  WLED_URL default_config = ""%string /\
  reachable default_config Js.digits_engine
    (step default_config Js.digits_engine
       (Handle 1 (POST_event (slot_report (repeat true 7)))) (initial default_config)) /\
  lighting (step default_config Js.digits_engine
       (Handle 1 (POST_event (slot_report (repeat true 7)))) (initial default_config))
  = (false, [], []).
Proof.
  assert (Hreach : reachable default_config Js.digits_engine
            (step default_config Js.digits_engine
               (Handle 1 (POST_event (slot_report (repeat true 7)))) (initial default_config)))
    by (apply reachable_step, reachable_initial).
  split; [reflexivity |]. split; [exact Hreach |].
  exact (unconfigured_lighting_is_inert default_config Js.digits_engine _ eq_refl Hreach).
Defined.

Lemma ready_latch_is_never_reset_witness :
  wledSegsReady (run lit_config Js.digits_engine
     [Handle 0 (POST_event (slot_report (repeat false 7))); WledCompletes 0; WledCompletes 0]
     (initial lit_config)) = true /\
  wledSegsReady (step lit_config Js.digits_engine (Handle 1 POST_admin_reset)
    (run lit_config Js.digits_engine
     [Handle 0 (POST_event (slot_report (repeat false 7))); WledCompletes 0; WledCompletes 0]
     (initial lit_config))) = true.
Proof.
  split; [reflexivity |].
  exact (ready_latch_is_never_reset lit_config Js.digits_engine (Handle 1 POST_admin_reset)
    (run lit_config Js.digits_engine
     [Handle 0 (POST_event (slot_report (repeat false 7))); WledCompletes 0; WledCompletes 0]
     (initial lit_config)) eq_refl).
Defined.

Lemma ready_only_after_both_setup_steps_witness :
  reachable lit_config Js.digits_engine
    (run lit_config Js.digits_engine
     [Handle 0 (POST_event (slot_report (repeat false 7))); WledCompletes 0; WledCompletes 0]
     (initial lit_config)) /\
  wledSegsReady (run lit_config Js.digits_engine
     [Handle 0 (POST_event (slot_report (repeat false 7))); WledCompletes 0; WledCompletes 0]
     (initial lit_config)) = true /\
  setup_sent_in_order (wledSent (run lit_config Js.digits_engine
     [Handle 0 (POST_event (slot_report (repeat false 7))); WledCompletes 0; WledCompletes 0]
     (initial lit_config))).
Proof.
  split; [apply reachable_run |]. split; [reflexivity |].
  exact (ready_only_after_both_setup_steps lit_config Js.digits_engine
    (run lit_config Js.digits_engine
     [Handle 0 (POST_event (slot_report (repeat false 7))); WledCompletes 0; WledCompletes 0]
     (initial lit_config)) (reachable_run _ _ _) eq_refl).
Defined.

(** * The sensor firmware *)

Module FirmwareFacts.
Import Firmware.

Lemma assign_app {A : Type} (v x : A) (rest : list A) (pre : list A) (i : nat) :
  length pre = i -> assign i v (pre ++ x :: rest) = pre ++ v :: rest.
Proof.
  intros <-. induction pre as [| y pre IH]; [reflexivity |].
  cbn [length app assign]. rewrite IH. reflexivity.
Qed.

Lemma skipn_cons_nth {A : Type} (d : A) (l : list A) : forall k,
  (k < length l)%nat -> skipn k l = nth k l d :: skipn (S k) l.
Proof.
  induction l as [| x l IH]; intros k Hk; [cbn in Hk; lia |].
  destruct k as [| k]; [reflexivity |].
  cbn [length] in Hk. cbn [skipn nth]. apply IH. lia.
Qed.

Lemma nth_app_exact {A : Type} (d v : A) (pre rest : list A) (i : nat) :
  length pre = i -> nth i (pre ++ v :: rest) d = v.
Proof.
  intros <-. rewrite app_nth2 by lia. rewrite Nat.sub_diag. reflexivity.
Qed.

(** The state after the first [k] switches were read. *)
Lemma read_prefix (inp : Inputs) (st : State) (k : nat) :
  well_formed st ->
  (k <= 7)%nat ->
  let st' := fold_left (readSwitch inp) (seq 0 k) st in
  slotState st' = map (low inp) (seq 0 k) ++ skipn k (slotState st) /\
  lastSlotState st' = map (low inp) (seq 0 k) ++ skipn k (lastSlotState st) /\
  pendingStateSync st' = pendingStateSync st || existsb (differs inp st) (seq 0 k) /\
  crystalCount st' = crystalCount st + count_true (map (low inp) (seq 0 k)) /\
  wifiConnected st' = wifiConnected st /\
  lastWifiCheck st' = lastWifiCheck st /\
  screen st' = screen st /\
  posted st' = posted st.
Proof.
  intros [Hslots Hlast]. induction k as [| k IH]; intros Hk.
  - cbn. rewrite orb_false_r, Z.add_0_r. repeat split; reflexivity.
  - specialize (IH ltac:(lia)). cbv zeta in IH.
    destruct IH as (Hs & Hl & Hp & Hc & Hw & Ht & Hscreen & Hposted).
    cbv zeta. rewrite seq_S, fold_left_app. cbn [fold_left Nat.add].
    set (stk := fold_left (readSwitch inp) (seq 0 k) st) in *.
    assert (Hlenk : length (map (low inp) (seq 0 k)) = k)
      by (rewrite length_map, length_seq; reflexivity).
    unfold readSwitch. cbn [slotState lastSlotState pendingStateSync crystalCount
                            wifiConnected lastWifiCheck screen posted].
    rewrite Hs, Hl, Hp, Hc.
    rewrite (skipn_cons_nth false (slotState st) k) by lia.
    rewrite (skipn_cons_nth false (lastSlotState st) k) by lia.
    repeat (rewrite (assign_app _ _ _ _ k Hlenk) || rewrite (nth_app_exact _ _ _ _ k Hlenk)).
    rewrite map_app, existsb_app. cbn [map existsb]. rewrite orb_false_r.
    rewrite <- !app_assoc. cbn [app].
    repeat split; auto.
    + unfold differs. destruct (negb (Bool.eqb (low inp k) (nth k (lastSlotState st) false)));
        [rewrite !orb_true_r | rewrite orb_false_r]; reflexivity.
    + unfold count_true. rewrite filter_app, length_app. cbn [filter].
      destruct (low inp k); cbn [length]; lia.
Qed.

Lemma read_all (inp : Inputs) (st : State) :
  well_formed st ->
  let st' := fold_left (readSwitch inp) (seq 0 7) st in
  slotState st' = map (low inp) (seq 0 7) /\
  lastSlotState st' = map (low inp) (seq 0 7) /\
  pendingStateSync st' = pendingStateSync st || changed inp st /\
  crystalCount st' = crystalCount st + count_true (map (low inp) (seq 0 7)) /\
  wifiConnected st' = wifiConnected st /\
  lastWifiCheck st' = lastWifiCheck st /\
  screen st' = screen st /\
  posted st' = posted st.
Proof.
  intros Hwf. pose proof (read_prefix inp st 7 Hwf (le_n 7)) as H. cbv zeta in H.
  destruct Hwf as [Hslots Hlast].
  rewrite !skipn_all2, !app_nil_r in H by lia. exact H.
Qed.

Lemma checkWifi_frame (inp : Inputs) (st : State) :
  slotState (checkWifi inp st) = slotState st /\
  lastSlotState (checkWifi inp st) = lastSlotState st /\
  pendingStateSync (checkWifi inp st) = pendingStateSync st /\
  screen (checkWifi inp st) = screen st /\
  posted (checkWifi inp st) = posted st.
Proof.
  unfold checkWifi. destruct (_ <? 2000); repeat split.
Qed.

(** One pass of [loop], field by field. *)
Lemma loop_run (inp : Inputs) (st : State) :
  well_formed st ->
  let readings := map (low inp) (seq 0 7) in
  let count := count_true readings in
  let connected := wifiConnected (checkWifi inp st) in
  let pending := pendingStateSync st || changed inp st in
  let st' := loop inp st in
  slotState st' = readings /\
  lastSlotState st' = readings /\
  crystalCount st' = count /\
  wifiConnected st' = connected /\
  lastWifiCheck st' = lastWifiCheck (checkWifi inp st) /\
  pendingStateSync st' = pending && negb (connected && (http_code inp =? 200)) /\
  posted st' = (if connected && pending
                then [(payload readings count, http_code inp)] else []) ++ posted st.
Proof.
  intros Hwf readings count connected pending st'. subst st'. unfold loop. cbv zeta.
  destruct (checkWifi_frame inp st) as (Hs & Hl & Hp & _ & Hposted).
  set (st0 := {| slotState := slotState (checkWifi inp st);
                 lastSlotState := lastSlotState (checkWifi inp st);
                 pendingStateSync := pendingStateSync (checkWifi inp st);
                 crystalCount := 0;
                 wifiConnected := wifiConnected (checkWifi inp st);
                 lastWifiCheck := lastWifiCheck (checkWifi inp st);
                 screen := screen (checkWifi inp st);
                 posted := posted (checkWifi inp st) |}).
  assert (Hwf0 : well_formed st0).
  { unfold well_formed, st0. cbn [slotState lastSlotState]. rewrite Hs, Hl. exact Hwf. }
  pose proof (read_all inp st0 Hwf0) as Hread. cbv zeta in Hread.
  destruct Hread as (Rs & Rl & Rp & Rc & Rw & Rt & _ & Rposted).
  assert (Hchanged : changed inp st0 = changed inp st).
  { unfold changed, st0. cbn [lastSlotState]. rewrite Hl. reflexivity. }
  rewrite Hchanged in Rp. unfold st0 at 2 in Rp. cbn [pendingStateSync] in Rp. rewrite Hp in Rp.
  unfold st0 at 2 in Rc. cbn [crystalCount] in Rc. rewrite Z.add_0_l in Rc.
  unfold st0 at 2 in Rw. cbn [wifiConnected] in Rw.
  unfold st0 at 2 in Rt. cbn [lastWifiCheck] in Rt.
  unfold st0 at 2 in Rposted. cbn [posted] in Rposted. rewrite Hposted in Rposted.
  set (st1 := fold_left (readSwitch inp) (seq 0 7) st0) in *.
  subst connected pending.
  unfold retryPending, sendCrystalEvent, drawStatus.
  cbn [slotState lastSlotState pendingStateSync crystalCount wifiConnected lastWifiCheck
       screen posted].
  rewrite ?Rs, ?Rl, ?Rp, ?Rc, ?Rt, ?Rposted, ?Rw. fold readings count.
  destruct (wifiConnected (checkWifi inp st)), (pendingStateSync st || changed inp st),
           (http_code inp =? 200);
    cbn [negb andb slotState lastSlotState pendingStateSync crystalCount wifiConnected
         lastWifiCheck screen posted app];
    repeat split; auto.
Qed.

Lemma well_formed_loop (inp : Inputs) (st : State) :
  well_formed st -> well_formed (loop inp st).
Proof.
  intros Hwf. destruct (loop_run inp st Hwf) as (Hs & Hl & _).
  unfold well_formed. rewrite Hs, Hl, length_map, length_seq. auto.
Qed.

Lemma unchanged_readings (inp : Inputs) (st : State) :
  length (lastSlotState st) = 7%nat ->
  changed inp st = false ->
  map (low inp) (seq 0 7) = lastSlotState st.
Proof.
  intros Hlen Hsame.
  apply (nth_ext _ _ false false); [rewrite length_map, length_seq; auto |].
  intros i Hi. rewrite length_map, length_seq in Hi.
  rewrite (nth_indep _ false (low inp 0%nat)) by (rewrite length_map, length_seq; exact Hi).
  rewrite map_nth, seq_nth by exact Hi. cbn [Nat.add].
  unfold changed in Hsame.
  destruct (Bool.eqb (low inp i) (nth i (lastSlotState st) false)) eqn:Heq;
    [apply eqb_prop; exact Heq |].
  exfalso. rewrite <- not_true_iff_false in Hsame. apply Hsame.
  apply existsb_exists. exists i. split; [apply in_seq; lia | rewrite Heq; reflexivity].
Qed.

Lemma in_step_setup : in_step setup.
Proof.
  split; [split; reflexivity |]. split; [reflexivity |]. split; [reflexivity |].
  intros _. right. split; reflexivity.
Qed.

Lemma in_step_loop (inp : Inputs) (st : State) : in_step st -> in_step (loop inp st).
Proof.
  intros (Hwf & Hlast & Hcount & Hsync).
  destruct (loop_run inp st Hwf) as (Hs & Hl & Hc & _ & _ & Hp & Hposted).
  split; [apply well_formed_loop; exact Hwf |].
  split; [congruence |]. split; [congruence |].
  rewrite Hp, Hs, Hc. unfold last_acknowledged. rewrite Hposted.
  destruct (pendingStateSync st || changed inp st) eqn:Hpend.
  - cbn [andb]. rewrite negb_false_iff. intros Hack.
    apply andb_true_iff in Hack. destruct Hack as [Hconn Hcode].
    rewrite Hconn. cbn [andb app find snd]. rewrite Hcode. left. reflexivity.
  - intros _. rewrite andb_false_r. cbn [app].
    apply orb_false_iff in Hpend. destruct Hpend as [Hpend Hsame].
    rewrite (unchanged_readings inp st (proj2 Hwf) Hsame), Hlast, <- Hcount.
    exact (Hsync Hpend).
Qed.

Lemma fold_left_step {A B : Type} (f : A -> B -> A) (x : B) (l : list B) (i : A) :
  fold_left f (x :: l) i = fold_left f l (f i x).
Proof. reflexivity. Qed.

Lemma loops_cons (inp : Inputs) (inputs : list Inputs) (st : State) :
  loops (inp :: inputs) st = loops inputs (loop inp st).
Proof.
  unfold loops.
  exact (fold_left_step (fun st' inp' => loop inp' st') inp inputs st).
Qed.

Lemma in_step_loops (inputs : list Inputs) : forall st,
  in_step st -> in_step (loops inputs st).
Proof.
  induction inputs as [| inp inputs IH]; intros st Hst; [exact Hst |].
  rewrite loops_cons. apply IH. apply in_step_loop. exact Hst.
Qed.

(** X17.  After a pass of [loop] the slot vector is the seven switches as
    just read, the previous-pass vector equals it, and [crystalCount] is the
    number of closed switches, between 0 and 7. *)
Theorem loop_reads_switches (inp : Inputs) (st : State) :
  well_formed st ->
  let st' := loop inp st in
  slotState st' = map (low inp) (seq 0 7) /\
  lastSlotState st' = slotState st' /\
  crystalCount st' = count_true (slotState st') /\
  0 <= crystalCount st' <= 7 /\
  well_formed st'.
Proof.
  intros Hwf st'. destruct (loop_run inp st Hwf) as (Hs & Hl & Hc & _).
  fold st' in Hs, Hl, Hc. rewrite Hs, Hl, Hc.
  pose proof (count_true_nonneg (map (low inp) (seq 0 7))).
  pose proof (count_true_le_length (map (low inp) (seq 0 7))) as Hle.
  rewrite length_map, length_seq in Hle.
  repeat split; auto; try lia.
  - rewrite Hs, length_map, length_seq. reflexivity.
  - rewrite Hl, length_map, length_seq. reflexivity.
Qed.

(** X18.  A pass of [loop] posts at most once: exactly when Wi-Fi is up and
    a report is pending (left over, or a switch changed), and then the full
    state just read.  The report stays pending until such a POST is answered
    200. *)
Theorem loop_reports_until_acknowledged (inp : Inputs) (st : State) :
  well_formed st ->
  let st' := loop inp st in
  let pending := pendingStateSync st || changed inp st in
  posted st' =
    (if wifiConnected st' && pending
     then [(payload (slotState st') (crystalCount st'), http_code inp)] else [])
    ++ posted st /\
  pendingStateSync st' =
    pending && negb (wifiConnected st' && (http_code inp =? 200)).
Proof.
  intros Hwf st' pending.
  destruct (loop_run inp st Hwf) as (Hs & _ & Hc & Hw & _ & Hp & Hposted).
  fold st' in Hs, Hc, Hw, Hp, Hposted. fold pending in Hp, Hposted.
  rewrite Hs, Hc, Hw. split; assumption.
Qed.

(** X19.  Whenever no report is pending, the newest payload the server
    answered with 200 is the current switch state; before any such answer,
    all switches are as they were at boot. *)
Theorem in_sync_means_acknowledged (inputs : list Inputs) :
  let st := loops inputs setup in
  pendingStateSync st = false ->
  last_acknowledged st = Some (payload (slotState st) (crystalCount st)) \/
  (last_acknowledged st = None /\ slotState st = repeat false 7).
Proof.
  intros st. apply (in_step_loops inputs setup in_step_setup).
Qed.

(** X20.  The two-second throttle of [checkWifi] survives the wrap of the
    32-bit millisecond counter: for true times less than [2^32] ms apart the
    unsigned subtraction is the true elapsed time, so the check is skipped
    below 2000 ms and taken from 2000 ms on. *)
Theorem wifi_check_survives_overflow (inp : Inputs) (st : State) (t_last t_now : Z) :
  0 <= t_last <= t_now ->
  t_now - t_last < ULONG ->
  lastWifiCheck st = t_last mod ULONG ->
  millis_read inp = t_now mod ULONG ->
  (t_now - t_last < 2000 -> checkWifi inp st = st) /\
  (2000 <= t_now - t_last ->
   wifiConnected (checkWifi inp st) = wifi_up inp /\
   lastWifiCheck (checkWifi inp st) = millis_stamp inp).
Proof.
  intros Horder Hspan Hlast Hnow. unfold checkWifi. rewrite Hlast, Hnow.
  rewrite <- Zminus_mod, Z.mod_small by lia.
  split; intros Helapsed.
  - destruct (Z.ltb_spec (t_now - t_last) 2000); [reflexivity | lia].
  - destruct (Z.ltb_spec (t_now - t_last) 2000); [lia | split; reflexivity].
Qed.

Lemma loop_reads_switches_witness :
  well_formed setup /\
  crystalCount (loop slot2_closed setup) = count_true (slotState (loop slot2_closed setup)).
Proof.
  assert (Hwf : well_formed setup) by (split; reflexivity).
  split; [exact Hwf |].
  exact (proj1 (proj2 (proj2 (loop_reads_switches slot2_closed setup Hwf)))).
Defined.

Lemma loop_reports_until_acknowledged_witness :
  well_formed setup /\
  pendingStateSync (loop slot2_closed setup) =
    (pendingStateSync setup || changed slot2_closed setup)
    && negb (wifiConnected (loop slot2_closed setup) && (http_code slot2_closed =? 200)).
Proof.
  assert (Hwf : well_formed setup) by (split; reflexivity).
  split; [exact Hwf |].
  exact (proj2 (loop_reports_until_acknowledged slot2_closed setup Hwf)).
Defined.

Lemma in_sync_means_acknowledged_witness :
  pendingStateSync (loops [slot2_closed] setup) = false /\
  (last_acknowledged (loops [slot2_closed] setup) =
     Some (payload (slotState (loops [slot2_closed] setup))
                   (crystalCount (loops [slot2_closed] setup))) \/
   (last_acknowledged (loops [slot2_closed] setup) = None /\
    slotState (loops [slot2_closed] setup) = repeat false 7)).
Proof.
  assert (Hsync : pendingStateSync (loops [slot2_closed] setup) = false)
    by (vm_compute; reflexivity).
  split; [exact Hsync |].
  exact (in_sync_means_acknowledged [slot2_closed] Hsync).
Defined.

Lemma wifi_check_survives_overflow_witness :
  0 <= 4294966296 <= 4294968796 /\
  4294968796 - 4294966296 < ULONG /\
  lastWifiCheck (checkWifi before_wrap setup) = 4294966296 mod ULONG /\
  millis_read after_wrap = 4294968796 mod ULONG /\
  wifiConnected (checkWifi after_wrap (checkWifi before_wrap setup)) = wifi_up after_wrap.
Proof.
  assert (Horder : 0 <= 4294966296 <= 4294968796) by lia.
  assert (Hspan : 4294968796 - 4294966296 < ULONG) by (vm_compute; reflexivity).
  assert (Hlast : lastWifiCheck (checkWifi before_wrap setup) = 4294966296 mod ULONG)
    by (vm_compute; reflexivity).
  assert (Hnow : millis_read after_wrap = 4294968796 mod ULONG) by (vm_compute; reflexivity).
  assert (Helapsed : 2000 <= 4294968796 - 4294966296) by lia.
  split; [exact Horder |]. split; [exact Hspan |]. split; [exact Hlast |].
  split; [exact Hnow |].
  exact (proj1 (proj2 (wifi_check_survives_overflow after_wrap (checkWifi before_wrap setup)
                         4294966296 4294968796 Horder Hspan Hlast Hnow) Helapsed)).
Defined.

End FirmwareFacts.

(** * The earlier variant of the server *)

Module LegacyFacts.
Import Legacy.

Section Facts.
Variable cfg : Config.
Variable js : Js.Engine.

Lemma push_head ev log : exists rest, push ev log = ev :: rest.
Proof.
  unfold push. cbv zeta.
  destruct (Nat.ltb_spec MAX_RECENT_EVENTS (length (ev :: log))) as [Hfull | _]; [| eauto].
  destruct log as [| ev' log']; [cbn in Hfull; unfold MAX_RECENT_EVENTS in Hfull; lia |].
  cbn [removelast]. eauto.
Qed.

Lemma push_length ev log :
  (length log <= MAX_RECENT_EVENTS)%nat -> (length (push ev log) <= MAX_RECENT_EVENTS)%nat.
Proof.
  intros Hlen. unfold push. cbv zeta.
  destruct (Nat.ltb_spec MAX_RECENT_EVENTS (length (ev :: log))) as [Hfull | Hroom];
    [| exact Hroom].
  rewrite removelast_firstn_len, length_firstn. cbn [length] in *. lia.
Qed.

Lemma updateWLEDFromHp_frame w :
  state (updateWLEDFromHp cfg w) = state w /\
  broadcasts (updateWLEDFromHp cfg w) = broadcasts w.
Proof.
  unfold updateWLEDFromHp, sendWLED. cbv zeta.
  destruct (String.eqb (WLED_URL cfg) ""); [auto |].
  destruct (gameOver (state w) || (bossHp (state w) <=? 0)); [auto |].
  destruct (negb (Qle_bool (percent (state w)) 66)); [auto |].
  destruct (negb (Qle_bool (percent (state w)) 33)); auto.
Qed.

Lemma clamp_slot_range n : 0 <= clamp_slot n <= 6.
Proof. destruct n; cbn [clamp_slot]; lia. Qed.

Lemma post_event_run now body w :
  let type := Js.prop (Js.or_empty body) "type" in
  let r := Js.Number js (Js.prop (Js.or_empty body) "slot") in
  let s := state w in
  (exists e, post_event cfg js now body w = (BadRequest e, w) /\
             (type <> Some (Js.Str "crystal") \/ r = Js.Returns Js.NaN)) \/
  (post_event cfg js now body w = (ServerError, w) /\
   type = Some (Js.Str "crystal") /\ r = Js.Throws) \/
  (exists n, type = Some (Js.Str "crystal") /\ r = Js.Returns n /\ n <> Js.NaN /\
   gameOver s = true /\
   fst (post_event cfg js now body w) = EventIgnored /\
   state (snd (post_event cfg js now body w)) =
     {| bossHp := bossHp s; maxHp := maxHp s; crystalCount := crystalCount s;
        totalCrystalsReceived := totalCrystalsReceived s;
        recentEvents := push (crystal_ignored (clamp_slot n)) (recentEvents s);
        gameOver := gameOver s |} /\
   wledSent (snd (post_event cfg js now body w)) = wledSent w /\
   broadcasts (snd (post_event cfg js now body w)) =
     state (snd (post_event cfg js now body w)) :: broadcasts w) \/
  (exists n, type = Some (Js.Str "crystal") /\ r = Js.Returns n /\ n <> Js.NaN /\
   gameOver s = false /\
   let hp := Z.max 0 (bossHp s - HP_PER_CRYSTAL cfg) in
   fst (post_event cfg js now body w) = EventOk hp (hp <=? 0) /\
   state (snd (post_event cfg js now body w)) =
     {| bossHp := hp; maxHp := maxHp s; crystalCount := crystalCount s + 1;
        totalCrystalsReceived := totalCrystalsReceived s + 1;
        recentEvents := push (crystal (clamp_slot n) (HP_PER_CRYSTAL cfg) now) (recentEvents s);
        gameOver := hp <=? 0 |} /\
   broadcasts (snd (post_event cfg js now body w)) =
     state (snd (post_event cfg js now body w)) :: broadcasts w).
Proof.
  intros type r s. subst type r. unfold post_event. cbv zeta.
  destruct (Js.strict_eq_string (Js.prop (Js.or_empty body) "type") "crystal") eqn:Ht;
    cbn [negb].
  2:{ left. eexists. split; [reflexivity |]. left. intros H.
      apply strict_eq_string_true in H. congruence. }
  apply strict_eq_string_true in Ht.
  destruct (Js.Number js (Js.prop (Js.or_empty body) "slot")) as [[| q | |] |] eqn:Hn;
    [left; eexists; split; [reflexivity | auto]
    | right; right | right; right | right; right
    | right; left; auto];
    fold s; destruct (gameOver s) eqn:Hover; [left | right | left | right | left | right];
    eexists;
    (split; [exact Ht |]); (split; [reflexivity |]); (split; [discriminate |]);
    (split; [reflexivity |]);
    cbv zeta;
    try match goal with
        | |- context [updateWLEDFromHp cfg ?w0] =>
            destruct (updateWLEDFromHp_frame w0) as [Hs Hb];
            cbn [fst snd broadcastState state broadcasts]; rewrite ?Hs, ?Hb
        end;
    cbn [fst snd broadcastState addEvent with_state state broadcasts wledSent bossHp maxHp
         crystalCount totalCrystalsReceived recentEvents gameOver];
    fold s; rewrite ?Hover;
    destruct (Z.max 0 (bossHp s - HP_PER_CRYSTAL cfg) <=? 0); repeat split; reflexivity.
Qed.

Lemma Qfloor_nonneg q : Qle_bool 0 q = true -> 0 <= Qfloor q.
Proof.
  intros H. apply Qle_bool_iff in H.
  change 0 with (Qfloor 0). apply Qfloor_resp_le. exact H.
Qed.

Lemma post_admin_hp_run now body w :
  let s := state w in
  (exists resp, post_admin_hp cfg js now body w = (resp, w)) \/
  (exists v, (0 <= v \/ v = maxHp s) /\
     state (snd (post_admin_hp cfg js now body w)) =
       {| bossHp := Z.min (maxHp s) v; maxHp := maxHp s; crystalCount := crystalCount s;
          totalCrystalsReceived := totalCrystalsReceived s;
          recentEvents := push (admin_hp (Z.min (maxHp s) v) now) (recentEvents s);
          gameOver := Z.min (maxHp s) v <=? 0 |}).
Proof.
  intros s. unfold post_admin_hp. cbv zeta.
  destruct (Js.Number js (Js.opt_prop body "hp")) as [[| q | |] |]; eauto.
  - destruct (Qle_bool 0 q) eqn:Hq; cbn [negb]; [| eauto].
    right. exists (Qfloor q). split; [left; apply Qfloor_nonneg; exact Hq |].
    cbn [snd broadcastState state].
    rewrite (proj1 (updateWLEDFromHp_frame _)). reflexivity.
  - right. exists (maxHp s). split; [right; reflexivity |].
    cbn [snd broadcastState state].
    rewrite (proj1 (updateWLEDFromHp_frame _)). reflexivity.
Qed.

Lemma legacy_post_admin_reset_run now w :
  let s := state w in
  state (snd (post_admin_reset cfg now w)) =
    {| bossHp := maxHp s; maxHp := maxHp s; crystalCount := 0;
       totalCrystalsReceived := 0; recentEvents := [admin_reset now];
       gameOver := false |}.
Proof.
  unfold post_admin_reset. cbv zeta. cbn [snd broadcastState state].
  rewrite (proj1 (updateWLEDFromHp_frame _)). reflexivity.
Qed.

Lemma handle_effect now r w :
  effect cfg (now, r) (state w) (state (snd (handle cfg js now r w))).
Proof.
  destruct r as [body | | body | | body]; cbn [handle].
  - pose proof (post_event_run now body w) as H. cbv zeta in H.
    destruct H as [[e [He _]] | [[He _] | [(n & _ & _ & _ & Hover & _ & Hs & _) |
                                           (n & _ & _ & _ & Hover & _ & Hs & _)]]].
    + rewrite He. constructor.
    + rewrite He. constructor.
    + rewrite Hs. apply effect_ignored; [exact Hover | apply clamp_slot_range].
    + rewrite Hs. apply effect_hit; [exact Hover | apply clamp_slot_range].
  - constructor.
  - pose proof (post_admin_hp_run now body w) as H. cbv zeta in H.
    destruct H as [[resp He] | [v [Hv Hs]]]; [rewrite He; constructor |].
    rewrite Hs. apply effect_hp. exact Hv.
  - rewrite legacy_post_admin_reset_run. constructor.
  - unfold post_admin_wled, sendWLED. cbn [snd].
    destruct (String.eqb (WLED_URL cfg) ""); constructor.
Qed.

Lemma legacy_consistent_effect r s s' :
  well_configured cfg ->
  effect cfg r s s' -> consistent cfg s -> consistent cfg s'.
Proof.
  intros [Hmax Hhpc] Heff Hs. pose proof Hs as [Hfix Hrange Hover Heq Hnn Hlog].
  destruct Heff; [exact Hs | | | |];
    constructor; cbn [bossHp maxHp crystalCount totalCrystalsReceived recentEvents gameOver];
    auto using push_length; try lia;
    try (apply leb_eqb_nonneg; lia);
    try (symmetry; apply Z.eqb_neq; lia).
  unfold MAX_RECENT_EVENTS. cbn [length]. lia.
Qed.

Lemma legacy_run_snoc requests r w :
  run cfg js (requests ++ [r]) w = snd (handle cfg js (fst r) (snd r) (run cfg js requests w)).
Proof. unfold run. rewrite fold_left_app. reflexivity. Qed.

Lemma consistent_run requests :
  well_configured cfg -> consistent cfg (state (run cfg js requests (initial cfg))).
Proof.
  intros Hcfg. induction requests as [| [now r] requests IH] using rev_ind.
  - destruct Hcfg. constructor; cbn; try reflexivity; lia.
  - rewrite legacy_run_snoc. cbn [fst snd].
    exact (legacy_consistent_effect _ _ _ Hcfg (handle_effect now r _) IH).
Qed.

Lemma hp_by_count_effect r s s' :
  well_configured cfg ->
  effect cfg r s s' ->
  no_admin_hp r = true ->
  consistent cfg s ->
  hp_by_count cfg s -> hp_by_count cfg s'.
Proof.
  intros [Hmax Hhpc] Heff Hr Hcons [Hhp Hcount].
  destruct Hcons as [Hfix Hrange Hover Heq Hnn Hlog].
  destruct Heff; try discriminate Hr; unfold hp_by_count;
    cbn [bossHp maxHp crystalCount]; auto.
  - split; [nia |]. right.
    assert (Hpos : 0 < bossHp s).
    { rewrite Hover in H. apply Z.eqb_neq in H. lia. }
    nia.
  - split; [lia | left; reflexivity].
Qed.


Lemma hp_by_count_run requests :
  well_configured cfg ->
  forallb no_admin_hp requests = true ->
  hp_by_count cfg (state (run cfg js requests (initial cfg))).
Proof.
  intros Hcfg. induction requests as [| [now r] requests IH] using rev_ind; intros Hall.
  - destruct Hcfg. unfold hp_by_count. cbn. split; [lia | left; reflexivity].
  - rewrite forallb_app in Hall. apply andb_true_iff in Hall. destruct Hall as [Hall Hr].
    cbn [forallb] in Hr. rewrite andb_true_r in Hr.
    rewrite legacy_run_snoc. cbn [fst snd].
    exact (hp_by_count_effect _ _ _ Hcfg (handle_effect now r _) Hr
             (consistent_run requests Hcfg) (IH Hall)).
Qed.

Lemma clamp_slot_inside q : (0 <= q)%Q -> (q < 7)%Q -> clamp_slot (Js.Fin q) = Qfloor q.
Proof.
  intros Hlo Hhi. cbn [clamp_slot].
  assert (0 <= Qfloor q) by (change 0 with (Qfloor 0); apply Qfloor_resp_le; exact Hlo).
  assert (Qfloor q < 7).
  { apply Z.lt_nge. intros Hge.
    apply (Qlt_not_le _ _ Hhi). apply Qle_trans with (inject_Z (Qfloor q)).
    - change 7%Q with (inject_Z 7). rewrite <- Zle_Qle. exact Hge.
    - apply Qfloor_le. }
  lia.
Qed.

Lemma clamp_slot_below q : (q < 0)%Q -> clamp_slot (Js.Fin q) = 0.
Proof.
  intros Hneg. cbn [clamp_slot].
  assert (Qfloor q < 0).
  { apply Z.lt_nge. intros Hge.
    apply (Qlt_not_le _ _ Hneg). apply Qle_trans with (inject_Z (Qfloor q)).
    - change 0%Q with (inject_Z 0). rewrite <- Zle_Qle. exact Hge.
    - apply Qfloor_le. }
  lia.
Qed.

Lemma clamp_slot_above q : (7 <= q)%Q -> clamp_slot (Js.Fin q) = 6.
Proof.
  intros Hhi. cbn [clamp_slot].
  assert (7 <= Qfloor q) by (change 7 with (Qfloor 7); apply Qfloor_resp_le; exact Hhi).
  lia.
Qed.

(** X21.  The earlier [POST /event] answers 400 exactly when [type] is not
    the string [crystal] or [Number(slot)] returns NaN, and 500 exactly when
    [type] is [crystal] and [Number(slot)] throws, which it does on an object
    with an own [toString] and on an array holding one; either way nothing
    changes.  Every other slot is accepted and logged, at the front, clamped
    into 0..6: the floor of a number inside the range, 0 below it and for
    [-Infinity], 6 above it and for [Infinity]. *)
Theorem slot_number_is_clamped now body w :
  let type := Js.prop (Js.or_empty body) "type" in
  let slot := Js.prop (Js.or_empty body) "slot" in
  let resp := fst (handle cfg js now (POST_event body) w) in
  let w' := snd (handle cfg js now (POST_event body) w) in
  (status resp = 400%nat <->
   type <> Some (Js.Str "crystal") \/ Js.Number js slot = Js.Returns Js.NaN) /\
  (status resp = 500%nat <->
   type = Some (Js.Str "crystal") /\ Js.Number js slot = Js.Throws) /\
  (Js.Number js slot = Js.Throws <-> exists v, slot = Some v /\ Js.throws v = true) /\
  (status resp <> 200%nat -> w' = w) /\
  (status resp = 200%nat <->
   type = Some (Js.Str "crystal") /\
   exists n, Js.Number js slot = Js.Returns n /\ n <> Js.NaN) /\
  (forall n, status resp = 200%nat -> Js.Number js slot = Js.Returns n ->
   exists older,
     recentEvents (state w') =
     (if gameOver (state w) then crystal_ignored (clamp_slot n)
      else crystal (clamp_slot n) (HP_PER_CRYSTAL cfg) now) :: older) /\
  (forall n, 0 <= clamp_slot n <= 6) /\
  (forall q, (0 <= q)%Q -> (q < 7)%Q -> clamp_slot (Js.Fin q) = Qfloor q) /\
  (forall q, (q < 0)%Q -> clamp_slot (Js.Fin q) = 0) /\
  (forall q, (7 <= q)%Q -> clamp_slot (Js.Fin q) = 6) /\
  clamp_slot Js.NegInf = 0 /\ clamp_slot Js.PosInf = 6.
Proof.
  intros type slot resp w'. subst resp w'. cbn [handle].
  assert (Hclamp :
    (forall n, 0 <= clamp_slot n <= 6) /\
    (forall q, (0 <= q)%Q -> (q < 7)%Q -> clamp_slot (Js.Fin q) = Qfloor q) /\
    (forall q, (q < 0)%Q -> clamp_slot (Js.Fin q) = 0) /\
    (forall q, (7 <= q)%Q -> clamp_slot (Js.Fin q) = 6) /\
    clamp_slot Js.NegInf = 0 /\ clamp_slot Js.PosInf = 6).
  { split; [exact clamp_slot_range |]. split; [exact clamp_slot_inside |].
    split; [exact clamp_slot_below |]. split; [exact clamp_slot_above |].
    split; reflexivity. }
  pose proof (post_event_run now body w) as H. cbv zeta in H.
  fold type in H. fold slot in H.
  destruct H as [[e [He Hwhy]] | [(He & Ht & Hr) |
                 [(n & Ht & Hr & Hn & Hover & Hresp & Hs & _) |
                  (n & Ht & Hr & Hn & Hover & Hresp & Hs & _)]]].
  - rewrite He. cbn [fst snd status].
    split; [split; auto |].
    split; [split; [discriminate |] |].
    { intros [Ht Hr]. destruct Hwhy as [Hbad | Hbad]; [contradiction | congruence]. }
    split; [apply Number_throws |].
    split; [reflexivity |].
    split; [split; [discriminate |] |].
    { intros [Ht (n & Hr & Hn)].
      destruct Hwhy as [Hbad | Hbad]; [contradiction | congruence]. }
    split; [intros n Hok; discriminate Hok | exact Hclamp].
  - rewrite He. cbn [fst snd status].
    split; [split; [discriminate |] |].
    { intros [Hbad | Hbad]; [contradiction | congruence]. }
    split; [split; auto |].
    split; [apply Number_throws |].
    split; [reflexivity |].
    split; [split; [discriminate |] |].
    { intros [_ (n & Hn & _)]. congruence. }
    split; [intros n Hok; discriminate Hok | exact Hclamp].
  - rewrite Hresp, Hs, Hover. cbn [status recentEvents].
    split; [split; [discriminate |] |].
    { intros [Hbad | Hbad]; [contradiction | congruence]. }
    split; [split; [discriminate | intros [_ Hbad]; congruence] |].
    split; [apply Number_throws |].
    split; [intros Hbad; contradiction |].
    split; [split; [intros _; split; [exact Ht | exists n; auto] | reflexivity] |].
    split; [| exact Hclamp].
    intros m _ Hm. rewrite Hr in Hm. injection Hm as <-. apply push_head.
  - cbv zeta in Hresp, Hs. rewrite Hresp, Hs, Hover. cbn [status recentEvents].
    split; [split; [discriminate |] |].
    { intros [Hbad | Hbad]; [contradiction | congruence]. }
    split; [split; [discriminate | intros [_ Hbad]; congruence] |].
    split; [apply Number_throws |].
    split; [intros Hbad; contradiction |].
    split; [split; [intros _; split; [exact Ht | exists n; auto] | reflexivity] |].
    split; [| exact Hclamp].
    intros m _ Hm. rewrite Hr in Hm. injection Hm as <-. apply push_head.
Qed.

(** X22.  Once [gameOver] is set the earlier [POST /event] is frozen: a
    crystal whose slot converts to a number [n] is answered
    [{ ok: true, gameOver: true }], leaves the HP, the maximum and both
    counters as they were, logs at the front one [ignored] record that
    carries the clamped slot of the request, sends nothing to the lighting
    device and broadcasts once. *)
Theorem game_over_ignores_crystals now body w n :
  gameOver (state w) = true ->
  Js.prop (Js.or_empty body) "type" = Some (Js.Str "crystal") ->
  Js.Number js (Js.prop (Js.or_empty body) "slot") = Js.Returns n ->
  n <> Js.NaN ->
  let resp := fst (handle cfg js now (POST_event body) w) in
  let w' := snd (handle cfg js now (POST_event body) w) in
  resp = EventIgnored /\
  bossHp (state w') = bossHp (state w) /\
  maxHp (state w') = maxHp (state w) /\
  crystalCount (state w') = crystalCount (state w) /\
  totalCrystalsReceived (state w') = totalCrystalsReceived (state w) /\
  gameOver (state w') = true /\
  recentEvents (state w') = push (crystal_ignored (clamp_slot n)) (recentEvents (state w)) /\
  (exists older, recentEvents (state w') = crystal_ignored (clamp_slot n) :: older) /\
  wledSent w' = wledSent w /\
  broadcasts w' = state w' :: broadcasts w.
Proof.
  intros Hover Ht Hr Hn resp w'. subst resp w'. cbn [handle].
  pose proof (post_event_run now body w) as H. cbv zeta in H.
  destruct H as [[e [_ [Hbad | Hbad]]] | [(_ & _ & Hbad) |
                 [(m & _ & Hm & _ & _ & Hresp & Hs & Hsent & Hb) |
                  (m & _ & _ & _ & Hfalse & _)]]];
    try contradiction; try congruence.
  rewrite Hr in Hm. injection Hm as <-.
  rewrite Hresp, Hsent, Hb, Hs.
  cbn [bossHp maxHp crystalCount totalCrystalsReceived gameOver recentEvents].
  repeat split; auto. apply push_head.
Qed.

(** X23.  In every state the earlier server reaches, [0 <= bossHp <= maxHp],
    [gameOver] holds exactly when [bossHp] is 0, the two crystal counters are
    equal, and the log holds at most 20 records. *)
Theorem legacy_invariant requests :
  well_configured cfg ->
  let s := state (run cfg js requests (initial cfg)) in
  0 <= bossHp s <= maxHp s /\
  (gameOver s = true <-> bossHp s = 0) /\
  totalCrystalsReceived s = crystalCount s /\
  (length (recentEvents s) <= MAX_RECENT_EVENTS)%nat.
Proof.
  intros Hcfg s. destruct (consistent_run requests Hcfg) as [_ Hrange Hover Heq _ Hlog].
  fold s in Hrange, Hover, Heq, Hlog.
  repeat split; auto; try tauto; rewrite Hover; apply Z.eqb_eq.
Qed.

(** X24.  As long as nobody posts to [/admin/hp], the earlier server keeps
    [bossHp == max(0, maxHp - crystalCount * HP_PER_CRYSTAL)], and
    [crystalCount] stops at the crystal that brings the HP to 0. *)
Theorem hp_follows_crystal_count requests :
  well_configured cfg ->
  forallb no_admin_hp requests = true ->
  let s := state (run cfg js requests (initial cfg)) in
  bossHp s = Z.max 0 (maxHp s - crystalCount s * HP_PER_CRYSTAL cfg) /\
  (crystalCount s = 0 \/ (crystalCount s - 1) * HP_PER_CRYSTAL cfg < maxHp s).
Proof.
  intros Hcfg Hall. exact (hp_by_count_run requests Hcfg Hall).
Qed.

End Facts.

Lemma game_over_ignores_crystals_witness :
  gameOver (state (run default_config Js.digits_engine
     [(1, POST_admin_hp (hp_body (Js.int 0)))] (initial default_config))) = true /\
  Js.prop (Js.or_empty (crystal_body (Js.int 9))) "type" = Some (Js.Str "crystal") /\
  Js.Number Js.digits_engine (Js.prop (Js.or_empty (crystal_body (Js.int 9))) "slot")
    = Js.Returns (Js.Fin (inject_Z 9)) /\
  Js.Fin (inject_Z 9) <> Js.NaN /\
  recentEvents (state (snd
    (handle default_config Js.digits_engine 2 (POST_event (crystal_body (Js.int 9)))
       (run default_config Js.digits_engine
          [(1, POST_admin_hp (hp_body (Js.int 0)))] (initial default_config)))))
  = push (crystal_ignored (clamp_slot (Js.Fin (inject_Z 9))))
      (recentEvents (state (run default_config Js.digits_engine
          [(1, POST_admin_hp (hp_body (Js.int 0)))] (initial default_config)))).
Proof.
  assert (Hn : Js.Fin (inject_Z 9) <> Js.NaN) by discriminate.
  split; [reflexivity |]. split; [reflexivity |]. split; [reflexivity |].
  split; [exact Hn |].
  exact (proj1 (proj2 (proj2 (proj2 (proj2 (proj2 (proj2
    (game_over_ignores_crystals default_config Js.digits_engine 2
       (crystal_body (Js.int 9))
       (run default_config Js.digits_engine
          [(1, POST_admin_hp (hp_body (Js.int 0)))] (initial default_config))
       (Js.Fin (inject_Z 9)) eq_refl eq_refl eq_refl Hn)))))))).
Defined.

Lemma legacy_invariant_witness :
  well_configured default_config /\
  totalCrystalsReceived (state (run default_config Js.digits_engine
     [(1, POST_event (crystal_body (Js.int 3))); (2, POST_admin_hp (hp_body (Js.int 5)));
      (3, POST_event (crystal_body (Js.int 9)))] (initial default_config)))
  = crystalCount (state (run default_config Js.digits_engine
     [(1, POST_event (crystal_body (Js.int 3))); (2, POST_admin_hp (hp_body (Js.int 5)));
      (3, POST_event (crystal_body (Js.int 9)))] (initial default_config))).
Proof.
  assert (Hcfg : well_configured default_config) by (split; reflexivity).
  split; [exact Hcfg |].
  exact (proj1 (proj2 (proj2 (legacy_invariant default_config Js.digits_engine
     [(1, POST_event (crystal_body (Js.int 3))); (2, POST_admin_hp (hp_body (Js.int 5)));
      (3, POST_event (crystal_body (Js.int 9)))] Hcfg)))).
Defined.

Lemma hp_follows_crystal_count_witness :
  well_configured default_config /\
  forallb no_admin_hp
    [(1, POST_event (crystal_body (Js.int 3))); (2, POST_event (crystal_body (Js.int 9)));
     (3, POST_admin_reset); (4, POST_event (crystal_body (Js.int 0)))] = true /\
  bossHp (state (run default_config Js.digits_engine
    [(1, POST_event (crystal_body (Js.int 3))); (2, POST_event (crystal_body (Js.int 9)));
     (3, POST_admin_reset); (4, POST_event (crystal_body (Js.int 0)))]
    (initial default_config))) = 90.
Proof.
  assert (Hcfg : well_configured default_config) by (split; reflexivity).
  split; [exact Hcfg |]. split; [reflexivity |].
  exact (proj1 (hp_follows_crystal_count default_config Js.digits_engine
    [(1, POST_event (crystal_body (Js.int 3))); (2, POST_event (crystal_body (Js.int 9)));
     (3, POST_admin_reset); (4, POST_event (crystal_body (Js.int 0)))] Hcfg eq_refl)).
Defined.

End LegacyFacts.
